(** * Force-directed knowledge-graph engine of ContractClarity

    Shallow embedding of [src/frontend/src/app/documents/[id]/graph/page.tsx]:
    the graph data model, the per-frame tick [runSimulation] (pinning,
    repulsion, centering, edge attraction, integration, bounds clamp),
    [drawGraph] as a list of canvas commands together with the canvas
    transform semantics, and the interaction handlers (pointer, wheel,
    zoom buttons, reset, type filter).

    JavaScript numbers are modelled as exact rationals [Q].  [Math.sqrt] and
    [ctx.measureText] are section variables: every result below holds for
    any implementation of them. *)

From Stdlib Require Import QArith Qminmax Qround List Ascii String Bool Arith Lia Lqa.
Import ListNotations.
Open Scope Q_scope.

(** ** Numeric helpers *)

(** [Math.max(a, b)] and [Math.min(a, b)] on non-NaN numbers. *)
Definition Math_max (a b : Q) : Q := if Qle_bool a b then b else a.
Definition Math_min (a b : Q) : Q := if Qle_bool a b then a else b.

(** strict comparison [a < b] *)
Definition Qltb (a b : Q) : bool := negb (Qle_bool b a).

(** ** Data model (interfaces [Node] and [Edge]) *)

(** [fx?: number | null]: both [undefined] and [null] are [None]. *)
Record Node := mkNode {
  id : string;
  label : string;
  type : string;
  value : option string;
  x : Q; y : Q; vx : Q; vy : Q;
  fx : option Q; fy : option Q
}.

(** The TypeScript fields [id], [type] and [label] of [Edge] are prefixed
    to keep them apart from the fields of [Node]. *)
Record Edge := mkEdge {
  edge_id : string;
  source : string;
  target : string;
  edge_type : string;
  edge_label : string
}.

Definition set_x (n : Node) (v : Q) : Node :=
  mkNode (id n) (label n) (type n) (value n) v (y n) (vx n) (vy n) (fx n) (fy n).
Definition set_y (n : Node) (v : Q) : Node :=
  mkNode (id n) (label n) (type n) (value n) (x n) v (vx n) (vy n) (fx n) (fy n).
Definition set_vx (n : Node) (v : Q) : Node :=
  mkNode (id n) (label n) (type n) (value n) (x n) (y n) v (vy n) (fx n) (fy n).
Definition set_vy (n : Node) (v : Q) : Node :=
  mkNode (id n) (label n) (type n) (value n) (x n) (y n) (vx n) v (fx n) (fy n).
Definition set_fxy (n : Node) (px py : option Q) : Node :=
  mkNode (id n) (label n) (type n) (value n) (x n) (y n) (vx n) (vy n) px py.

(** The entry of the graph payload ([GraphData] of the API client). *)
Record GraphData := mkGraphData {
  data_nodes : list Node;
  data_edges : list Edge
}.

(** [arr[i] = v] on an existing index (out of range: unchanged, it is never
    reached below). *)
Fixpoint upd {A} (i : nat) (v : A) (l : list A) : list A :=
  match l, i with
  | [], _ => []
  | _ :: t, O => v :: t
  | h :: t, S i' => h :: upd i' v t
  end.

(** [arr.findIndex(p)], as an option: the index of the first match;
    [arr.find(p)] is the element at that index. *)
Fixpoint find_index {A} (p : A -> bool) (l : list A) : option nat :=
  match l with
  | [] => None
  | h :: t => if p h then Some O else option_map S (find_index p t)
  end.

Section Engine.

(** [Math.sqrt] *)
Variable msqrt : Q -> Q.
(** [ctx.measureText(s).width] in the bold 11px font *)
Variable measureText : string -> Q.

(** ** Layout simulator: [runSimulation], lines 154-252 *)

Definition repulsion : Q := 5000.
Definition attraction : Q := 2 # 1000.
Definition damping : Q := 9 # 10.
Definition centerForce : Q := 2 # 1000.
Definition maxVelocity : Q := 5.
Definition minDistance : Q := 80.

(** lines 177-184 *)
Definition apply_pin (n : Node) : Node :=
  let n1 := match fx n with Some p => set_vx (set_x n p) 0 | None => n end in
  match fy n1 with Some p => set_vy (set_y n1 p) 0 | None => n1 end.

(** body of the inner [nodes.forEach((other) => ...)], lines 187-205 *)
Definition repel (node other : Node) : Node :=
  if String.eqb (id node) (id other) then node else
  let dx := x node - x other in
  let dy := y node - y other in
  let dist := msqrt (dx * dx + dy * dy) in
  let node1 :=
    if Qltb dist minDistance && Qltb 0 dist then
      let pushStrength := (minDistance - dist) * (1 # 2) in
      set_vy (set_vx node (vx node + (dx / dist) * pushStrength))
             (vy node + (dy / dist) * pushStrength)
    else node in
  let safeDist := Math_max dist 10 in
  let force := repulsion / (safeDist * safeDist) in
  set_vy (set_vx node1 (vx node1 + (dx / safeDist) * force))
         (vy node1 + (dy / safeDist) * force).

(** repulsion against every node of the current array, then the center
    force, lines 187-209 *)
Definition force_node (width height : Q) (nodes : list Node) (node : Node) : Node :=
  let node1 := fold_left repel nodes node in
  set_vy (set_vx node1 (vx node1 + (width / 2 - x node1) * centerForce))
         (vy node1 + (height / 2 - y node1) * centerForce).

(** The outer [nodes.forEach], lines 176-210, mutating the array in place:
    when the node at the head of [todo] is handled, the array is
    [processed ++ pinned node :: rest]. *)
Fixpoint forces_go (width height : Q) (processed todo : list Node) : list Node :=
  match todo with
  | [] => processed
  | n :: rest =>
      let node := apply_pin n in
      let node' := force_node width height (processed ++ node :: rest) node in
      forces_go width height (processed ++ [node']) rest
  end.

Definition forces_pass (width height : Q) (nodes : list Node) : list Node :=
  forces_go width height [] nodes.

(** body of [edges.forEach], lines 213-226; [source] and [target] are the
    first node with the id ([nodes.find]); the target is re-read after the
    source update, as the two can be the same object. The unused [dist] of
    line 220 is left out. *)
Definition attract_edge (nodes : list Node) (edge : Edge) : list Node :=
  match find_index (fun n => String.eqb (id n) (source edge)) nodes,
        find_index (fun n => String.eqb (id n) (target edge)) nodes with
  | Some si, Some ti =>
      match nth_error nodes si, nth_error nodes ti with
      | Some s, Some t =>
          let dx := x t - x s in
          let dy := y t - y s in
          let nodes1 := upd si (set_vy (set_vx s (vx s + dx * attraction))
                                       (vy s + dy * attraction)) nodes in
          match nth_error nodes1 ti with
          | Some t1 => upd ti (set_vy (set_vx t1 (vx t1 - dx * attraction))
                                      (vy t1 - dy * attraction)) nodes1
          | None => nodes1
          end
      | _, _ => nodes
      end
  | _, _ => nodes
  end.

Definition attract_pass (nodes : list Node) (edges : list Edge) : list Node :=
  fold_left attract_edge edges nodes.

(** body of the last [nodes.forEach], lines 229-246 *)
Definition integrate (width height : Q) (node : Node) : Node :=
  let n1 :=
    match fx node with
    | None =>
        let v := Math_max (- maxVelocity) (Math_min maxVelocity (vx node * damping)) in
        set_x (set_vx node v) (x node + v)
    | Some _ => node
    end in
  let n2 :=
    match fy n1 with
    | None =>
        let v := Math_max (- maxVelocity) (Math_min maxVelocity (vy n1 * damping)) in
        set_y (set_vy n1 v) (y n1 + v)
    | Some _ => n1
    end in
  let n3 := set_x n2 (Math_max 40 (Math_min (width - 40) (x n2))) in
  set_y n3 (Math_max 40 (Math_min (height - 40) (y n3))).

(** the kinematic part of one tick, lines 175-246 *)
Definition sim_step (width height : Q) (nodes : list Node) (edges : list Edge)
  : list Node :=
  map (integrate width height) (attract_pass (forces_pass width height nodes) edges).

(** ** Load: [initializeGraph], lines 116-152 *)

(** [seedpos i] is the jittered-circle position of lines 129-139 for the
    [i]-th node ([seed_circle] below; it draws on [Math.random],
    [Math.cos] and [Math.sin]).
    [None] when the canvas or its container is missing (early returns of
    lines 118 and 122): the refs are left as they were. The returned
    graph is the new [nodesRef.current] / [edgesRef.current]; the call
    then (re)starts [runSimulation]. *)
Definition seed_node (seedpos : nat -> Q * Q) (i : nat) (node : Node) : Node :=
  let '(px, py) := seedpos i in
  set_vy (set_vx (set_y (set_x node px) py) 0) 0.

Fixpoint seed_nodes (seedpos : nat -> Q * Q) (i : nat) (nodes : list Node) : list Node :=
  match nodes with
  | [] => []
  | n :: rest => seed_node seedpos i n :: seed_nodes seedpos (S i) rest
  end.

(** [seedpos] of lines 129-139 for the [i]-th of [count] nodes in a
    [width] x [height] container.  [cos], [sin] and [PI] stand for
    [Math.cos], [Math.sin] and [Math.PI]; [rnd k] is the result of the
    [k]-th call of [Math.random()] of the load, three per node in order
    (radius, [jitterX], [jitterY]). *)
Definition seed_circle (cos sin : Q -> Q) (PI : Q) (rnd : nat -> Q) (width height : Q)
  (count i : nat) : Q * Q :=
  let angle := (2 * PI * inject_Z (Z.of_nat i)) / inject_Z (Z.of_nat count) in
  let baseRadius := Math_min width height * (35 # 100) in
  let radius := baseRadius * ((1 # 2) + rnd (3 * i)%nat * (1 # 2)) in
  let jitterX := (rnd (3 * i + 1)%nat - (1 # 2)) * 80 in
  let jitterY := (rnd (3 * i + 2)%nat - (1 # 2)) * 80 in
  (width / 2 + radius * cos angle + jitterX, height / 2 + radius * sin angle + jitterY).

Definition initializeGraph (canvas_present container_present : bool)
  (seedpos : nat -> Q * Q) (data : GraphData) : option (list Node * list Edge) :=
  if negb canvas_present then None
  else if negb container_present then None
  else Some (seed_nodes seedpos 0 (data_nodes data), data_edges data).

(** ** Canvas 2D context

    The current transformation matrix [(a b c d e f)] of a
    [CanvasRenderingContext2D] and its update rules from the HTML standard
    ([setTransform] replaces it, [translate] and [scale] post-multiply). *)
Record Matrix := mkMatrix { ma : Q; mb : Q; mc : Q; md : Q; me : Q; mf : Q }.

Inductive Cmd :=
| SetTransform (a b c d e f : Q)
| Translate (tx ty : Q)
| Scale (sx sy : Q)
| ClearRect (x0 y0 w h : Q)
| BeginPath
| MoveTo (x0 y0 : Q)
| LineTo (x0 y0 : Q)
| Arc (x0 y0 r : Q)
| Stroke (style : string) (lineWidth : Q)
| Fill (style : string)
| FillText (style : string) (text : list Z) (x0 y0 : Q)
| FillRect (style : string) (x0 y0 w h : Q).

Definition identity_matrix : Matrix := mkMatrix 1 0 0 1 0 0.

Definition ctm_step (m : Matrix) (c : Cmd) : Matrix :=
  match c with
  | SetTransform a b c d e f => mkMatrix a b c d e f
  | Translate tx ty =>
      mkMatrix (ma m) (mb m) (mc m) (md m)
               (ma m * tx + mc m * ty + me m) (mb m * tx + md m * ty + mf m)
  | Scale sx sy => mkMatrix (ma m * sx) (mb m * sx) (mc m * sy) (md m * sy) (me m) (mf m)
  | _ => m
  end.

(** the matrix in force after a command sequence *)
Definition ctm (cmds : list Cmd) : Matrix := fold_left ctm_step cmds identity_matrix.

(** device-pixel position of a point drawn under matrix [m] *)
Definition apply_matrix (m : Matrix) (px py : Q) : Q * Q :=
  (ma m * px + mc m * py + me m, mb m * px + md m * py + mf m).

Definition is_transform (c : Cmd) : bool :=
  match c with SetTransform _ _ _ _ _ _ | Translate _ _ | Scale _ _ => true | _ => false end.

(** ** React state of [GraphPage] (lines 59-66)

    [selectedNode] and [hoveredNode] hold a node object; only its [id] is
    read. [draggedNode] is mutated through ([draggedNode.fx = ...]), so it
    is kept as the index of that object in [nodesRef.current]. The
    [Set<string>] of selected types is a duplicate-free list. *)
Record UIState := mkUI {
  selectedNode : option Node;
  hoveredNode : option Node;
  selectedTypes : list string;
  zoom : Q;
  panX : Q; panY : Q;
  isDragging : bool;
  dragStartX : Q; dragStartY : Q;
  draggedNode : option nat
}.

(** ** Renderer: [drawGraph], lines 254-351 *)

Definition has_type (types : list string) (t : string) : bool :=
  existsb (String.eqb t) types.

(** [nodes.find((n) => n.id === s)] *)
Definition find_by_id (s : string) (nodes : list Node) : option Node :=
  find (fun n => String.eqb (id n) s) nodes.

(** [colors[node.type] || '#6b7280'] *)
Definition color_of (t : string) : string :=
  if String.eqb t "party" then "#3b82f6"
  else if String.eqb t "person" then "#a855f7"
  else if String.eqb t "date" then "#10b981"
  else if String.eqb t "amount" then "#f59e0b"
  else if String.eqb t "location" then "#ef4444"
  else if String.eqb t "term" then "#06b6d4"
  else if String.eqb t "percentage" then "#ec4899"
  else "#6b7280".

(** lines 274-276 *)
Definition visible_nodes (ui : UIState) (nodes : list Node) : list Node :=
  match selectedTypes ui with
  | [] => nodes
  | types => filter (fun n => has_type types (type n)) nodes
  end.

(** lines 264-271 *)
Definition draw_setup (dpr width height zoom panx pany : Q) : list Cmd :=
  [SetTransform 1 0 0 1 0 0; ClearRect 0 0 (width * dpr) (height * dpr);
   SetTransform dpr 0 0 dpr 0 0; Translate panx pany; Scale zoom zoom].

(** lines 280-293 *)
Definition draw_edge (nodes visible : list Node) (edge : Edge) : list Cmd :=
  let visibleNodeIds := map id visible in
  if negb (existsb (String.eqb (source edge)) visibleNodeIds)
     || negb (existsb (String.eqb (target edge)) visibleNodeIds) then []
  else
    match find_by_id (source edge) nodes, find_by_id (target edge) nodes with
    | Some s, Some t =>
        [BeginPath; MoveTo (x s) (y s); LineTo (x t) (y t);
         Stroke "rgba(99, 102, 106, 0.25)" (1 # 2)]
    | _, _ => []
    end.

(** ** Text

    A label is held as its UTF-8 bytes; a JavaScript string, and so
    [label.length], [label.slice] and the text handed to [fillText], is a
    sequence of UTF-16 code units.  [utf8_decode] reads the code points (a
    byte that does not start a well-formed sequence reads as U+FFFD, one per
    byte) and [utf16] gives the code units. *)
Definition byte_of (a : ascii) : Z := Z.of_nat (Ascii.nat_of_ascii a).

Definition is_cont (a : ascii) : bool := (128 <=? byte_of a)%Z && (byte_of a <? 192)%Z.

Fixpoint utf8_decode (s : string) : list Z :=
  match s with
  | EmptyString => []
  | String a rest =>
      let b := byte_of a in
      if (b <? 128)%Z then b :: utf8_decode rest
      else if (192 <=? b)%Z && (b <? 224)%Z then
        match rest with
        | String c1 rest1 =>
            if is_cont c1 then
              Z.lor (Z.shiftl (Z.land b 31) 6) (Z.land (byte_of c1) 63) :: utf8_decode rest1
            else 65533%Z :: utf8_decode rest
        | EmptyString => [65533%Z]
        end
      else if (224 <=? b)%Z && (b <? 240)%Z then
        match rest with
        | String c1 (String c2 rest2) =>
            if is_cont c1 && is_cont c2 then
              Z.lor (Z.shiftl (Z.land b 15) 12)
                (Z.lor (Z.shiftl (Z.land (byte_of c1) 63) 6) (Z.land (byte_of c2) 63))
              :: utf8_decode rest2
            else 65533%Z :: utf8_decode rest
        | _ => 65533%Z :: utf8_decode rest
        end
      else if (240 <=? b)%Z && (b <? 248)%Z then
        match rest with
        | String c1 (String c2 (String c3 rest3)) =>
            if is_cont c1 && is_cont c2 && is_cont c3 then
              Z.lor (Z.shiftl (Z.land b 7) 18)
                (Z.lor (Z.shiftl (Z.land (byte_of c1) 63) 12)
                   (Z.lor (Z.shiftl (Z.land (byte_of c2) 63) 6) (Z.land (byte_of c3) 63)))
              :: utf8_decode rest3
            else 65533%Z :: utf8_decode rest
        | _ => 65533%Z :: utf8_decode rest
        end
      else 65533%Z :: utf8_decode rest
  end.

(** a code point as one unit, or above U+FFFF as a surrogate pair *)
Definition utf16_units (cp : Z) : list Z :=
  if (cp <? 65536)%Z then [cp]
  else [Z.lor 55296 (Z.shiftr (cp - 65536) 10); Z.lor 56320 (Z.land (cp - 65536) 1023)]%Z.

Definition utf16 (s : string) : list Z := flat_map utf16_units (utf8_decode s).

(** every byte below 128 *)
Fixpoint ascii_only (s : string) : bool :=
  match s with
  | EmptyString => true
  | String a rest => (byte_of a <? 128)%Z && ascii_only rest
  end.

(** line 323: [label.length > 14 ? label.slice(0, 12) + '..' : label] *)
Definition short_label (l : string) : list Z :=
  let u := utf16 l in
  if Nat.ltb 14 (List.length u) then firstn 12 u ++ [46; 46]%Z else u.

(** lines 306-329 *)
Definition draw_node (ui : UIState) (node : Node) : list Cmd :=
  let isSelected :=
    match selectedNode ui with Some s => String.eqb (id s) (id node) | None => false end in
  let radius : Q := if isSelected then 6 else 4 in
  [BeginPath; Arc (x node) (y node) radius; Fill (color_of (type node))]
  ++ (if isSelected then [Stroke "#c9a227" (3 # 2)] else [])
  ++ [FillText "rgba(148, 163, 184, 0.6)" (short_label (label node))
               (x node) (y node + radius + 3)].

(** lines 332-350 *)
Definition draw_focus_label (ui : UIState) (visible : list Node) : list Cmd :=
  let labelNode := match selectedNode ui with Some n => Some n | None => hoveredNode ui end in
  match labelNode with
  | None => []
  | Some ln =>
      match find_by_id (id ln) visible with
      | None => []
      | Some node =>
          let textWidth := measureText (label node) in
          [FillRect "rgba(10, 10, 11, 0.85)" (x node - textWidth / 2 - 4) (y node - 20)
                    (textWidth + 8) 16;
           FillText "#f1f5f9" (utf16 (label node)) (x node) (y node - 12)]
      end
  end.

Definition draw_body (ui : UIState) (nodes : list Node) (edges : list Edge) : list Cmd :=
  let visible := visible_nodes ui nodes in
  flat_map (draw_edge nodes visible) edges
  ++ flat_map (draw_node ui) visible
  ++ draw_focus_label ui visible.

Definition drawGraph (ui : UIState) (dpr : Q) (nodes : list Node) (edges : list Edge)
  (width height : Q) : list Cmd :=
  draw_setup dpr width height (zoom ui) (panX ui) (panY ui) ++ draw_body ui nodes edges.

(** ** One frame: [runSimulation]

    What the browser supplies to the callback. [Number(v) || d] falls back
    to [d] on a missing attribute (NaN) and on 0. *)
Record Env := mkEnv {
  canvas_present : bool;
  context_present : bool;
  dataset_logicalWidth : option Q;
  dataset_logicalHeight : option Q;
  canvas_width : Q;
  canvas_height : Q;
  devicePixelRatio : Q
}.

Definition js_or (v : option Q) (d : Q) : Q :=
  match v with Some w => if Qeq_bool w 0 then d else w | None => d end.

Definition env_width (env : Env) : Q := js_or (dataset_logicalWidth env) (canvas_width env).
Definition env_height (env : Env) : Q := js_or (dataset_logicalHeight env) (canvas_height env).
Definition env_dpr (env : Env) : Q := js_or (Some (devicePixelRatio env)) 1.

(** The callback of lines 154-252 run with the closure state [ui]: the new
    contents of the node array, the canvas commands drawn, and whether
    [requestAnimationFrame(runSimulation)] was called again. *)
Definition runSimulation (ui : UIState) (env : Env) (nodes : list Node) (edges : list Edge)
  : list Node * list Cmd * bool :=
  if negb (canvas_present env) || Nat.eqb (List.length nodes) 0 then (nodes, [], false)
  else if negb (context_present env) then (nodes, [], false)
  else
    let width := env_width env in
    let height := env_height env in
    let nodes' := sim_step width height nodes edges in
    (nodes', drawGraph ui (env_dpr env) nodes' edges width height, true).

(** The per-frame loop: one callback per animation frame, as long as the
    previous one rescheduled itself. *)
Fixpoint frames (ui : UIState) (envs : list Env) (nodes : list Node) (edges : list Edge)
  (scheduled : bool) : list Node * bool :=
  match envs with
  | [] => (nodes, scheduled)
  | env :: rest =>
      if scheduled then
        let '(nodes', _, again) := runSimulation ui env nodes edges in
        frames ui rest nodes' edges again
      else (nodes, false)
  end.

End Engine.

(** ** Interaction controller: the canvas handlers, lines 353-442 *)

Definition set_selected (ui : UIState) (n : option Node) : UIState :=
  mkUI n (hoveredNode ui) (selectedTypes ui) (zoom ui) (panX ui) (panY ui)
       (isDragging ui) (dragStartX ui) (dragStartY ui) (draggedNode ui).
Definition set_hovered (ui : UIState) (n : option Node) : UIState :=
  mkUI (selectedNode ui) n (selectedTypes ui) (zoom ui) (panX ui) (panY ui)
       (isDragging ui) (dragStartX ui) (dragStartY ui) (draggedNode ui).
Definition set_types (ui : UIState) (ts : list string) : UIState :=
  mkUI (selectedNode ui) (hoveredNode ui) ts (zoom ui) (panX ui) (panY ui)
       (isDragging ui) (dragStartX ui) (dragStartY ui) (draggedNode ui).
Definition set_zoom (ui : UIState) (z : Q) : UIState :=
  mkUI (selectedNode ui) (hoveredNode ui) (selectedTypes ui) z (panX ui) (panY ui)
       (isDragging ui) (dragStartX ui) (dragStartY ui) (draggedNode ui).
Definition set_pan (ui : UIState) (px py : Q) : UIState :=
  mkUI (selectedNode ui) (hoveredNode ui) (selectedTypes ui) (zoom ui) px py
       (isDragging ui) (dragStartX ui) (dragStartY ui) (draggedNode ui).
Definition set_dragging (ui : UIState) (b : bool) : UIState :=
  mkUI (selectedNode ui) (hoveredNode ui) (selectedTypes ui) (zoom ui) (panX ui) (panY ui)
       b (dragStartX ui) (dragStartY ui) (draggedNode ui).
Definition set_dragStart (ui : UIState) (sx sy : Q) : UIState :=
  mkUI (selectedNode ui) (hoveredNode ui) (selectedTypes ui) (zoom ui) (panX ui) (panY ui)
       (isDragging ui) sx sy (draggedNode ui).
Definition set_draggedNode (ui : UIState) (d : option nat) : UIState :=
  mkUI (selectedNode ui) (hoveredNode ui) (selectedTypes ui) (zoom ui) (panX ui) (panY ui)
       (isDragging ui) (dragStartX ui) (dragStartY ui) d.

(** A mouse event as the handlers read it: [e.clientX], [e.clientY] and the
    [left]/[top] of [canvas.getBoundingClientRect()]. *)
Record Pointer := mkPointer { clientX : Q; clientY : Q; rect_left : Q; rect_top : Q }.

(** lines 358-360 and 384-386 *)
Definition to_model (ui : UIState) (e : Pointer) : Q * Q :=
  ((clientX e - rect_left e - panX ui) / zoom ui,
   (clientY e - rect_top e - panY ui) / zoom ui).

Section Controller.

Variable msqrt : Q -> Q.

(** the [find] predicate of lines 363-367 and 398-402 *)
Definition within (px py : Q) (node : Node) : bool :=
  let dx := x node - px in
  let dy := y node - py in
  Qltb (msqrt (dx * dx + dy * dy)) 20.

Definition hit_index (px py : Q) (nodes : list Node) : option nat :=
  find_index (within px py) nodes.

(** lines 354-378; the state returned is the React state after the
    re-render and the node array after the in-place pin *)
Definition handleCanvasMouseDown (canvas_present : bool) (e : Pointer)
  (ui : UIState) (nodes : list Node) : UIState * list Node :=
  if negb canvas_present then (ui, nodes) else
  let '(px, py) := to_model ui e in
  match hit_index px py nodes with
  | Some i =>
      match nth_error nodes i with
      | Some clickedNode =>
          let pinned := set_fxy clickedNode (Some (x clickedNode)) (Some (y clickedNode)) in
          (set_selected (set_draggedNode ui (Some i)) (Some pinned), upd i pinned nodes)
      | None => (ui, nodes)
      end
  | None =>
      (set_dragStart (set_dragging ui true) (clientX e - panX ui) (clientY e - panY ui), nodes)
  end.

(** lines 380-405 *)
Definition handleCanvasMouseMove (canvas_present : bool) (e : Pointer)
  (ui : UIState) (nodes : list Node) : UIState * list Node :=
  if negb canvas_present then (ui, nodes) else
  let '(px, py) := to_model ui e in
  match draggedNode ui with
  | Some i =>
      match nth_error nodes i with
      | Some n => (ui, upd i (set_fxy n (Some px) (Some py)) nodes)
      | None => (ui, nodes)
      end
  | None =>
      if isDragging ui then
        (set_pan ui (clientX e - dragStartX ui) (clientY e - dragStartY ui), nodes)
      else
        let hovered :=
          match hit_index px py nodes with Some i => nth_error nodes i | None => None end in
        (set_hovered ui hovered, nodes)
  end.

End Controller.

(** lines 407-414 *)
Definition handleCanvasMouseUp (ui : UIState) (nodes : list Node) : UIState * list Node :=
  let '(ui1, nodes1) :=
    match draggedNode ui with
    | Some i =>
        match nth_error nodes i with
        | Some n => (set_draggedNode ui None, upd i (set_fxy n None None) nodes)
        | None => (set_draggedNode ui None, nodes)
        end
    | None => (ui, nodes)
    end in
  (set_dragging ui1 false, nodes1).

(** lines 416-419 *)
Definition handleCanvasMouseLeave (ui : UIState) (nodes : list Node) : UIState * list Node :=
  let '(ui1, nodes1) := handleCanvasMouseUp ui nodes in
  (set_hovered ui1 None, nodes1).

(** lines 421-425 *)
Definition wheel_zoom (deltaY z : Q) : Q :=
  let delta : Q := if Qltb 0 deltaY then 9 # 10 else 11 # 10 in
  Math_max (3 # 10) (Math_min 3 (z * delta)).

Definition handleWheel (deltaY : Q) (ui : UIState) : UIState :=
  set_zoom ui (wheel_zoom deltaY (zoom ui)).

(** the zoom-in and zoom-out buttons, lines 528 and 534 *)
Definition zoomIn (ui : UIState) : UIState := set_zoom ui (Math_min 3 (zoom ui * (6 # 5))).
Definition zoomOut (ui : UIState) : UIState := set_zoom ui (Math_max (3 # 10) (zoom ui * (4 # 5))).

(** lines 427-432 *)
Definition resetView (ui : UIState) : UIState :=
  set_types (set_selected (set_pan (set_zoom ui (8 # 10)) 0 0) None) [].

(** lines 434-442: [Set.delete] / [Set.add] *)
Definition toggleType (t : string) (ui : UIState) : UIState :=
  if has_type (selectedTypes ui) t
  then set_types ui (filter (fun s => negb (String.eqb t s)) (selectedTypes ui))
  else set_types ui (selectedTypes ui ++ [t]).

(** Every user action on the graph view. *)
Inductive UIOp :=
| OpMouseDown (e : Pointer)
| OpMouseMove (e : Pointer)
| OpMouseUp
| OpMouseLeave
| OpWheel (deltaY : Q)
| OpZoomIn
| OpZoomOut
| OpToggleType (t : string)
| OpReset.

Definition apply_op (msqrt : Q -> Q) (canvas_present : bool) (st : UIState * list Node)
  (op : UIOp) : UIState * list Node :=
  let '(ui, nodes) := st in
  match op with
  | OpMouseDown e => handleCanvasMouseDown msqrt canvas_present e ui nodes
  | OpMouseMove e => handleCanvasMouseMove msqrt canvas_present e ui nodes
  | OpMouseUp => handleCanvasMouseUp ui nodes
  | OpMouseLeave => handleCanvasMouseLeave ui nodes
  | OpWheel d => (handleWheel d ui, nodes)
  | OpZoomIn => (zoomIn ui, nodes)
  | OpZoomOut => (zoomOut ui, nodes)
  | OpToggleType t => (toggleType t ui, nodes)
  | OpReset => (resetView ui, nodes)
  end.

Definition apply_ops (msqrt : Q -> Q) (canvas_present : bool) (ops : list UIOp)
  (st : UIState * list Node) : UIState * list Node :=
  fold_left (apply_op msqrt canvas_present) ops st.

(** ** Concrete instances for evaluation

    [Math.sqrt] rounded down to a rational: [sqrt(n/d) = sqrt(n*d)/d],
    exact on perfect squares. A bold 11px glyph is taken 6 px wide. *)
Definition Qsqrt_floor (q : Q) : Q :=
  inject_Z (Z.sqrt (Qnum q * Zpos (Qden q))) / inject_Z (Zpos (Qden q)).

Definition measure6 (s : string) : Q := inject_Z (Z.of_nat (String.length s)) * 6.

(** Sample inputs: the party [A] and the date [B] of the spec's edge-filtering
    example, an edge [A -> B] and an edge [A -> C] to an absent node. *)
Definition ex_nodeA : Node := mkNode "A" "Acme Corp" "party" None 100 100 0 0 None None.
Definition ex_nodeB : Node := mkNode "B" "1 March 2024" "date" None 200 100 0 0 None None.
Definition ex_edgeAB : Edge := mkEdge "e1" "A" "B" "party_date" "signed on".
Definition ex_edgeAC : Edge := mkEdge "e2" "A" "C" "party_amount" "pays".
Definition ex_graph : GraphData := mkGraphData [ex_nodeA; ex_nodeB] [ex_edgeAB; ex_edgeAC].
Definition ex_seed (i : nat) : Q * Q := (100 + inject_Z (Z.of_nat i) * 100, 100).

(** an 800 x 600 container on a display with device pixel ratio 2 *)
Definition ex_env : Env := mkEnv true true (Some 800) (Some 600) 1600 1200 2.
(** the same frame with [canvas.getContext('2d')] returning [null] *)
Definition ex_env_noctx : Env := mkEnv true false (Some 800) (Some 600) 1600 1200 2.
(** a 60 x 60 container *)
Definition ex_env_small : Env := mkEnv true true (Some 60) (Some 60) 120 120 2.

(** a node dragged to (300, 200), inside the inset *)
Definition ex_pinnedC : Node := mkNode "C" "Net 30 days" "term" None 300 200 0 0 (Some 300) (Some 200).

(** the initial React state (lines 59-66) *)
Definition ex_ui0 : UIState := mkUI None None [] (8 # 10) 0 0 false 0 0 None.

(** a view zoomed to 0.8 and panned by (30, -20) *)
Definition ex_ui_view : UIState := mkUI None None [] (8 # 10) 30 (-20) false 0 0 None.

(** an idle view at zoom 1 without pan, a pointer at (100, 100) on a canvas
    at the page origin, a node 15 units from it and, after it in the
    array, a node exactly under it *)
Definition ex_ui_hit : UIState := mkUI None None [] 1 0 0 false 0 0 None.
Definition ex_pointer : Pointer := mkPointer 100 100 0 0.
Definition ex_pointer2 : Pointer := mkPointer 130 80 0 0.
Definition ex_hit_first : Node := mkNode "P" "Acme Corp" "party" None 109 112 0 0 None None.
Definition ex_hit_nearest : Node := mkNode "Q" "Acme Holdings" "party" None 100 100 0 0 None None.

(** node [A] dragged to the model point (10, 10), left of the inset *)
Definition ex_pinnedA : Node := mkNode "A" "Acme Corp" "party" None 10 10 0 0 (Some 10) (Some 10).

(** ** Predicates used in the statements *)

(** the node array has a node with id [s] ([nodes.find(...)] succeeds) *)
Definition present (s : string) (nodes : list Node) : bool :=
  existsb (fun n => String.eqb (id n) s) nodes.

(** both endpoints of the edge are nodes of the array *)
Definition edge_in (nodes : list Node) (e : Edge) : bool :=
  present (source e) nodes && present (target e) nodes.

(** the fields a tick changes only through pins, and the identity *)
Definition proj (n : Node) : string * Q * Q * option Q * option Q :=
  (id n, x n, y n, fx n, fy n).

(** ** Page chrome around the canvas *)

(** the keys of [entityTypeConfig], lines 14-22, in their order *)
Definition entityTypes : list string :=
  ["party"; "person"; "date"; "amount"; "location"; "term"; "percentage"]%string.

(** The entity-type legend of lines 563-583: for each configured type with a
    non-zero count in [stats.entity_types] ([count || 0]), its count and
    whether the button is shown highlighted ([selectedTypes.has(type) ||
    selectedTypes.size === 0]). *)
Definition legend (entity_types : string -> option Q) (ui : UIState)
  : list (string * Q * bool) :=
  flat_map (fun t =>
      let count := js_or (entity_types t) 0 in
      if Qeq_bool count 0 then []
      else [(t, count, has_type (selectedTypes ui) t
                       || Nat.eqb (List.length (selectedTypes ui)) 0)])
    entityTypes.

(** [Math.round]: the nearest integer, halves rounded up *)
Definition Math_round (q : Q) : Z := Qfloor (q + (1 # 2)).

(** the zoom indicator of line 654, [Math.round(zoom * 100)] percent *)
Definition zoom_percent (ui : UIState) : Z := Math_round (zoom ui * 100).

(** [resizeCanvas], lines 451-468, for a container of logical size [w] x [h]:
    the logical size goes to the data attributes ([Number(String(w))] is
    [w]), the bitmap gets [Math.floor(w * dpr)] x [Math.floor(h * dpr)]. A
    missing container leaves the canvas untouched. *)
Definition resizeCanvas (container_present : bool) (w h : Q) (env : Env) : Env :=
  if negb container_present then env
  else mkEnv (canvas_present env) (context_present env) (Some w) (Some h)
         (inject_Z (Qfloor (w * env_dpr env))) (inject_Z (Qfloor (h * env_dpr env)))
         (devicePixelRatio env).

(** [loadData], lines 72-89.  The document request resolves ([Some doc]) or
    rejects ([None]); the graph request cannot reject ([.catch(() => null)]),
    so it is a graph or [null].  A rejection of [Promise.all] skips both
    setters; [finally] always clears [loading]. *)
Section Load.

Variable Doc : Type.

Record PageData := mkPage { document : option Doc; graphData : option GraphData; loading : bool }.

Definition loadData (doc : option Doc) (graph : option GraphData) (p : PageData) : PageData :=
  match doc with
  | None => mkPage (document p) (graphData p) false
  | Some d =>
      let gd :=
        match graph with
        | Some g => if Nat.ltb 0 (List.length (data_nodes g)) then Some g else graphData p
        | None => graphData p
        end in
      mkPage (Some d) gd false
  end.

End Load.

(** the circles ([ctx.arc]) of a command list, as centre and radius *)
Definition arcs (cmds : list Cmd) : list (Q * Q * Q) :=
  flat_map (fun c => match c with Arc a b r => [(a, b, r)] | _ => [] end) cmds.

(** the emphasised labels ([ctx.fillRect] plates) of a command list *)
Definition plates (cmds : list Cmd) : list (Q * Q) :=
  flat_map (fun c => match c with FillRect _ a b _ _ => [(a, b)] | _ => [] end) cmds.

(** the display data of a node, which no tick changes *)
Definition display (n : Node) : string * string * string * option string :=
  (id n, label n, type n, value n).

(** everything of a node but its pins: display data, position, velocity *)
Definition kin (n : Node) : string * string * string * option string * Q * Q * Q * Q :=
  (display n, x n, y n, vx n, vy n).

(** the display data and the pins of a node *)
Definition dpin (n : Node) : string * string * string * option string * option Q * option Q :=
  (display n, fx n, fy n).

(** ** Lemmas on the list helpers *)

Lemma find_index_None {A} (p : A -> bool) l :
  existsb p l = false -> find_index p l = None.
Proof.
  induction l as [|h t IH]; simpl; auto.
  intros H; apply orb_false_iff in H as [H1 H2]; rewrite H1, IH; auto.
Qed.

Lemma map_upd {A B} (f : A -> B) i v (l : list A) :
  map f (upd i v l) = upd i (f v) (map f l).
Proof.
  revert i; induction l as [|h t IH]; intros [|i]; simpl; f_equal; auto.
Qed.

Lemma upd_same_image {A B} (f : A -> B) i v (l : list A) a :
  nth_error l i = Some a -> f v = f a -> map f (upd i v l) = map f l.
Proof.
  revert i; induction l as [|h t IH]; intros [|i] Hn Hf; simpl in *; try discriminate.
  - injection Hn as ->; rewrite Hf; reflexivity.
  - f_equal; eauto.
Qed.

Lemma present_map_id s n1 n2 :
  map id n1 = map id n2 -> present s n1 = present s n2.
Proof.
  revert n2; induction n1 as [|a t IH]; intros [|b t2] H; simpl in *;
    try discriminate; auto.
  injection H as Hab Ht; rewrite Hab, (IH t2 Ht); reflexivity.
Qed.

Lemma edge_in_map_id n1 n2 e :
  map id n1 = map id n2 -> edge_in n1 e = edge_in n2 e.
Proof.
  intros H; unfold edge_in; rewrite (present_map_id _ _ _ H),
    (present_map_id (target e) _ _ H); reflexivity.
Qed.

(** ** What each pass of the tick preserves *)

Section Passes.

Variable msqrt : Q -> Q.

Lemma proj_repel node other : proj (repel msqrt node other) = proj node.
Proof.
  unfold repel; destruct (String.eqb _ _); [reflexivity|].
  destruct (_ && _); reflexivity.
Qed.

Lemma proj_fold_repel others node :
  proj (fold_left (repel msqrt) others node) = proj node.
Proof.
  revert node; induction others as [|o t IH]; intros node; simpl; auto.
  rewrite IH; apply proj_repel.
Qed.

Lemma proj_force_node w h l node : proj (force_node msqrt w h l node) = proj node.
Proof.
  unfold force_node; rewrite <- (proj_fold_repel l node); reflexivity.
Qed.

Lemma proj_forces_go w h processed todo :
  map proj (forces_go msqrt w h processed todo)
  = map proj processed ++ map (fun n => proj (apply_pin n)) todo.
Proof.
  revert processed; induction todo as [|n rest IH]; intros processed; simpl.
  - rewrite app_nil_r; reflexivity.
  - rewrite IH, map_app; simpl; rewrite proj_force_node, <- app_assoc; reflexivity.
Qed.

Lemma proj_forces_pass w h nodes :
  map proj (forces_pass msqrt w h nodes) = map (fun n => proj (apply_pin n)) nodes.
Proof. apply proj_forces_go. Qed.

Lemma id_apply_pin n : id (apply_pin n) = id n.
Proof. destruct n as [i l t v px py pvx pvy [a|] [b|]]; reflexivity. Qed.

Lemma ids_forces_pass w h nodes :
  map id (forces_pass msqrt w h nodes) = map id nodes.
Proof.
  assert (E : forall l : list Node, map id l = map (fun p => fst (fst (fst (fst p)))) (map proj l)).
  { intros l; rewrite map_map; reflexivity. }
  rewrite E, proj_forces_pass, map_map.
  apply map_ext; intros n; apply id_apply_pin.
Qed.

End Passes.

Lemma proj_attract_edge nodes e : map proj (attract_edge nodes e) = map proj nodes.
Proof.
  unfold attract_edge.
  destruct (find_index _ nodes) as [si|]; [|reflexivity].
  destruct (find_index _ nodes) as [ti|]; [|reflexivity].
  destruct (nth_error nodes si) as [s|] eqn:Hs; [|reflexivity].
  destruct (nth_error nodes ti) as [t|] eqn:Ht; [|reflexivity].
  assert (H1 : map proj (upd si (set_vy (set_vx s (vx s + (x t - x s) * attraction))
                   (vy s + (y t - y s) * attraction)) nodes) = map proj nodes)
    by (apply (upd_same_image _ _ _ _ s Hs); reflexivity).
  destruct (nth_error (upd si _ nodes) ti) as [t1|] eqn:Ht1; [|exact H1].
  rewrite <- H1; apply (upd_same_image _ _ _ _ t1 Ht1); reflexivity.
Qed.

Lemma proj_attract_pass nodes edges : map proj (attract_pass nodes edges) = map proj nodes.
Proof.
  unfold attract_pass; revert nodes; induction edges as [|e t IH]; intros nodes; simpl; auto.
  rewrite IH; apply proj_attract_edge.
Qed.

Lemma ids_of_proj (l1 l2 : list Node) : map proj l1 = map proj l2 -> map id l1 = map id l2.
Proof.
  intros H.
  assert (E : forall l : list Node, map id l = map (fun p => fst (fst (fst (fst p)))) (map proj l)).
  { intros l; rewrite map_map; reflexivity. }
  rewrite (E l1), (E l2), H; reflexivity.
Qed.

Lemma ids_attract_pass nodes edges : map id (attract_pass nodes edges) = map id nodes.
Proof. apply ids_of_proj, proj_attract_pass. Qed.

Lemma id_integrate w h n : id (integrate w h n) = id n.
Proof. unfold integrate; destruct (fx n), (fy _); reflexivity. Qed.

Lemma ids_sim_step msqrt w h nodes edges :
  map id (sim_step msqrt w h nodes edges) = map id nodes.
Proof.
  unfold sim_step; rewrite map_map.
  rewrite (map_ext _ id (id_integrate w h)).
  rewrite ids_attract_pass; apply ids_forces_pass.
Qed.

(** ** Dangling edges *)

Lemma find_None {A} (p : A -> bool) l : existsb p l = false -> find p l = None.
Proof.
  induction l as [|h t IH]; simpl; auto.
  intros H; apply orb_false_iff in H as [H1 H2]; rewrite H1; auto.
Qed.

Lemma attract_edge_dangling nodes e :
  edge_in nodes e = false -> attract_edge nodes e = nodes.
Proof.
  unfold edge_in, present, attract_edge; intros H.
  apply andb_false_iff in H as [H|H]; rewrite (find_index_None _ _ H).
  - reflexivity.
  - destruct (find_index _ nodes); reflexivity.
Qed.

Lemma attract_pass_filter ns0 edges nodes :
  map id nodes = map id ns0 ->
  attract_pass nodes edges = attract_pass nodes (filter (edge_in ns0) edges).
Proof.
  unfold attract_pass; revert nodes; induction edges as [|e t IH]; intros nodes Hid;
    simpl; auto.
  destruct (edge_in ns0 e) eqn:He; simpl.
  - apply IH. rewrite <- Hid. apply ids_of_proj, proj_attract_edge.
  - rewrite attract_edge_dangling by (rewrite (edge_in_map_id _ _ _ Hid); exact He).
    apply IH, Hid.
Qed.

Lemma draw_edge_dangling nodes visible e :
  edge_in nodes e = false -> draw_edge nodes visible e = [].
Proof.
  unfold edge_in, present, draw_edge, find_by_id; intros H.
  destruct (_ || _); [reflexivity|].
  apply andb_false_iff in H as [H|H]; rewrite (find_None _ _ H);
    [|destruct (find _ nodes)]; reflexivity.
Qed.

Lemma flat_map_filter_nil {A B} (f : A -> list B) (p : A -> bool) l :
  (forall a, p a = false -> f a = []) -> flat_map f l = flat_map f (filter p l).
Proof.
  intros Hf; induction l as [|a t IH]; simpl; auto.
  destruct (p a) eqn:Ha; simpl; rewrite IH; auto.
  rewrite (Hf a Ha); reflexivity.
Qed.

Lemma draw_body_filter mt ns0 ui nodes edges :
  map id nodes = map id ns0 ->
  draw_body mt ui nodes edges = draw_body mt ui nodes (filter (edge_in ns0) edges).
Proof.
  intros Hid; unfold draw_body; f_equal.
  apply flat_map_filter_nil; intros e He.
  apply draw_edge_dangling; rewrite (edge_in_map_id _ _ _ Hid); exact He.
Qed.

Lemma runSimulation_filter msqrt mt ns0 ui env nodes edges :
  map id nodes = map id ns0 ->
  runSimulation msqrt mt ui env nodes edges
  = runSimulation msqrt mt ui env nodes (filter (edge_in ns0) edges).
Proof.
  intros Hid; unfold runSimulation.
  destruct (_ || _); [reflexivity|].
  destruct (negb (context_present env)); [reflexivity|].
  assert (Hs : sim_step msqrt (env_width env) (env_height env) nodes edges
             = sim_step msqrt (env_width env) (env_height env) nodes
                 (filter (edge_in ns0) edges)).
  { unfold sim_step; f_equal; apply attract_pass_filter.
    rewrite ids_forces_pass; exact Hid. }
  rewrite <- Hs; unfold drawGraph; do 3 f_equal.
  apply draw_body_filter; rewrite ids_sim_step; exact Hid.
Qed.

Lemma ids_runSimulation msqrt mt ui env nodes edges :
  map id (fst (fst (runSimulation msqrt mt ui env nodes edges))) = map id nodes.
Proof.
  unfold runSimulation.
  destruct (_ || _); [reflexivity|].
  destruct (negb (context_present env)); [reflexivity|].
  apply ids_sim_step.
Qed.

Lemma ids_seed_nodes seedpos i nodes : map id (seed_nodes seedpos i nodes) = map id nodes.
Proof.
  revert i; induction nodes as [|n t IH]; intros i; simpl; auto.
  rewrite IH; unfold seed_node; destruct (seedpos i); reflexivity.
Qed.

(** ** C1: edges with a missing endpoint *)

(** C1 (as stated, refuted): it is not true that after [initializeGraph]
    the stored edge collection only holds edges whose two endpoints are
    loaded nodes: with nodes [A], [B] and edges [A -> B], [A -> C], the
    edge [A -> C] is stored. *)
Lemma C1_dangling_edge_is_stored :
  ~ (forall seedpos data ns es,
       initializeGraph true true seedpos data = Some (ns, es) ->
       forallb (edge_in ns) es = true).
Proof.
  intros H.
  specialize (H ex_seed ex_graph _ _ eq_refl).
  vm_compute in H; discriminate.
Qed.

(** C1 (amended): [initializeGraph] stores [data.edges] unchanged, dangling
    edges included; on every later tick the node ids are still those loaded,
    and a tick (attraction and drawing alike) gives exactly the result it
    gives with the edge list filtered to the edges whose both endpoints are
    loaded nodes. *)
Theorem C1_edges_stored_unfiltered_but_inert :
  forall msqrt mt seedpos data ns es,
  initializeGraph true true seedpos data = Some (ns, es) ->
  es = data_edges data /\
  map id ns = map id (data_nodes data) /\
  (forall ui env nodes, map id nodes = map id ns ->
     map id (fst (fst (runSimulation msqrt mt ui env nodes es))) = map id ns /\
     runSimulation msqrt mt ui env nodes es
     = runSimulation msqrt mt ui env nodes (filter (edge_in ns) es)).
Proof.
  intros msqrt mt seedpos data ns es H.
  unfold initializeGraph in H; simpl in H; injection H as <- <-.
  split; [reflexivity|]. split; [apply ids_seed_nodes|].
  intros ui env nodes Hid; split.
  - rewrite ids_runSimulation; exact Hid.
  - apply runSimulation_filter; exact Hid.
Qed.

Lemma C1_edges_stored_unfiltered_but_inert_witness :
  initializeGraph true true ex_seed ex_graph
    = Some (seed_nodes ex_seed 0 [ex_nodeA; ex_nodeB], [ex_edgeAB; ex_edgeAC]) /\
  filter (edge_in (seed_nodes ex_seed 0 [ex_nodeA; ex_nodeB])) [ex_edgeAB; ex_edgeAC]
    = [ex_edgeAB] /\
  runSimulation Qsqrt_floor measure6 ex_ui0 ex_env
    (seed_nodes ex_seed 0 [ex_nodeA; ex_nodeB]) [ex_edgeAB; ex_edgeAC]
  = runSimulation Qsqrt_floor measure6 ex_ui0 ex_env
    (seed_nodes ex_seed 0 [ex_nodeA; ex_nodeB])
    (filter (edge_in (seed_nodes ex_seed 0 [ex_nodeA; ex_nodeB])) [ex_edgeAB; ex_edgeAC]).
Proof.
  split; [reflexivity|]. split; [vm_compute; reflexivity|].
  apply (C1_edges_stored_unfiltered_but_inert Qsqrt_floor measure6 ex_seed ex_graph
           _ _ eq_refl).
  reflexivity.
Defined.

(** ** C2: frames without a drawing context *)

(** C2 (code bug): when the canvas or its 2D context is missing, or the
    node array is empty, a tick leaves the node array unchanged and draws
    nothing, but it returns before [requestAnimationFrame(runSimulation)]:
    the loop is not rescheduled, and no later frame runs even once the
    context is available again. *)
Theorem C2_missing_context_stops_loop :
  forall msqrt mt ui env nodes edges,
  canvas_present env = false \/ context_present env = false \/ nodes = [] ->
  runSimulation msqrt mt ui env nodes edges = (nodes, [], false) /\
  forall later, frames msqrt mt ui (env :: later) nodes edges true = (nodes, false).
Proof.
  intros msqrt mt ui env nodes edges Hc.
  assert (Hr : runSimulation msqrt mt ui env nodes edges = (nodes, [], false)).
  { unfold runSimulation.
    destruct Hc as [Hc|[Hc|Hc]].
    - rewrite Hc; reflexivity.
    - destruct (_ || _); [reflexivity|]. rewrite Hc; reflexivity.
    - subst nodes; simpl; rewrite orb_true_r; reflexivity. }
  split; [exact Hr|].
  intros later; simpl; rewrite Hr; destruct later; reflexivity.
Qed.

Lemma C2_missing_context_stops_loop_witness :
  runSimulation Qsqrt_floor measure6 ex_ui0 ex_env_noctx [ex_nodeA; ex_nodeB] [ex_edgeAB]
    = ([ex_nodeA; ex_nodeB], [], false) /\
  frames Qsqrt_floor measure6 ex_ui0 [ex_env_noctx; ex_env; ex_env]
    [ex_nodeA; ex_nodeB] [ex_edgeAB] true = ([ex_nodeA; ex_nodeB], false).
Proof.
  destruct (C2_missing_context_stops_loop Qsqrt_floor measure6 ex_ui0 ex_env_noctx
              [ex_nodeA; ex_nodeB] [ex_edgeAB] (or_intror (or_introl eq_refl))) as [H1 H2].
  split; [exact H1 | apply H2].
Defined.

(** ** [Math.max] / [Math.min] *)

Lemma Qle_bool_false a b : Qle_bool a b = false -> b < a.
Proof.
  intros H; apply Qnot_le_lt; intros Hle; apply Qle_bool_iff in Hle; congruence.
Qed.

Lemma Math_min_le_l a b : Math_min a b <= a.
Proof.
  unfold Math_min; destruct (Qle_bool a b) eqn:E; [apply Qle_refl|].
  apply Qlt_le_weak, Qle_bool_false, E.
Qed.

Lemma Math_max_ge_l a b : a <= Math_max a b.
Proof.
  unfold Math_max; destruct (Qle_bool a b) eqn:E; [apply Qle_bool_iff, E|apply Qle_refl].
Qed.

Lemma Math_max_ge_r a b : b <= Math_max a b.
Proof.
  unfold Math_max; destruct (Qle_bool a b) eqn:E; [apply Qle_refl|].
  apply Qlt_le_weak, Qle_bool_false, E.
Qed.

Lemma Math_max_mono_r a b c : b <= c -> Math_max a b <= Math_max a c.
Proof.
  intros Hbc; unfold Math_max.
  destruct (Qle_bool a b) eqn:E1, (Qle_bool a c) eqn:E2; auto.
  - apply Qle_bool_false in E2. apply Qle_bool_iff in E1.
    apply Qle_trans with c; [exact Hbc|apply Qlt_le_weak, E2].
  - apply Qle_bool_iff, E2.
  - apply Qle_refl.
Qed.

(** the bounds clamp [Math.max(lo, Math.min(hi, v))] *)
Lemma clamp_fixed lo hi v : lo <= v -> v <= hi -> Math_max lo (Math_min hi v) == v.
Proof.
  intros H1 H2; unfold Math_min.
  destruct (Qle_bool hi v) eqn:E.
  - apply Qle_bool_iff in E.
    assert (Hv : hi == v) by (apply Qle_antisym; assumption).
    unfold Math_max; destruct (Qle_bool lo hi) eqn:E2; [exact Hv|].
    apply Qle_bool_false in E2. exfalso; apply (Qlt_not_le _ _ E2).
    apply Qle_trans with v; [exact H1|exact H2].
  - unfold Math_max; rewrite (proj2 (Qle_bool_iff lo v) H1); reflexivity.
Qed.

Lemma clamp_bounds lo hi v :
  lo <= Math_max lo (Math_min hi v) /\ Math_max lo (Math_min hi v) <= Math_max lo hi.
Proof.
  split; [apply Math_max_ge_l|apply Math_max_mono_r, Math_min_le_l].
Qed.

(** ** Pins through a tick *)

Lemma map_eq_nth {A B C} (f : A -> C) (g : B -> C) l1 l2 i b :
  map f l1 = map g l2 -> nth_error l2 i = Some b ->
  exists a, nth_error l1 i = Some a /\ f a = g b.
Proof.
  intros H Hb.
  assert (E : nth_error (map f l1) i = nth_error (map g l2) i) by (rewrite H; reflexivity).
  rewrite !nth_error_map, Hb in E; simpl in E.
  destruct (nth_error l1 i) as [a|]; simpl in E; [|discriminate].
  injection E as E; eauto.
Qed.

Lemma nth_sim_step msqrt w h nodes edges i n :
  nth_error nodes i = Some n ->
  exists m, proj m = proj (apply_pin n) /\
    nth_error (sim_step msqrt w h nodes edges) i = Some (integrate w h m).
Proof.
  intros Hn.
  assert (Hp : map proj (attract_pass (forces_pass msqrt w h nodes) edges)
               = map (fun n => proj (apply_pin n)) nodes)
    by (rewrite proj_attract_pass; apply proj_forces_pass).
  destruct (map_eq_nth _ _ _ _ _ _ Hp Hn) as [m [Hm Hpm]].
  exists m; split; [exact Hpm|].
  unfold sim_step; rewrite nth_error_map, Hm; reflexivity.
Qed.

Lemma apply_pin_x n : x (apply_pin n) = match fx n with Some p => p | None => x n end.
Proof. destruct n as [i l t v px py pvx pvy [a|] [b|]]; reflexivity. Qed.

Lemma apply_pin_y n : y (apply_pin n) = match fy n with Some p => p | None => y n end.
Proof. destruct n as [i l t v px py pvx pvy [a|] [b|]]; reflexivity. Qed.

Lemma apply_pin_fx n : fx (apply_pin n) = fx n.
Proof. destruct n as [i l t v px py pvx pvy [a|] [b|]]; reflexivity. Qed.

Lemma apply_pin_fy n : fy (apply_pin n) = fy n.
Proof. destruct n as [i l t v px py pvx pvy [a|] [b|]]; reflexivity. Qed.

Lemma integrate_fields w h m :
  fx (integrate w h m) = fx m /\ fy (integrate w h m) = fy m /\
  x (integrate w h m) = Math_max 40 (Math_min (w - 40)
    (match fx m with
     | None => x m + Math_max (- maxVelocity) (Math_min maxVelocity (vx m * damping))
     | Some _ => x m end)) /\
  y (integrate w h m) = Math_max 40 (Math_min (h - 40)
    (match fy m with
     | None => y m + Math_max (- maxVelocity) (Math_min maxVelocity (vy m * damping))
     | Some _ => y m end)) /\
  vx (integrate w h m) =
    match fx m with
    | None => Math_max (- maxVelocity) (Math_min maxVelocity (vx m * damping))
    | Some _ => vx m end /\
  vy (integrate w h m) =
    match fy m with
    | None => Math_max (- maxVelocity) (Math_min maxVelocity (vy m * damping))
    | Some _ => vy m end.
Proof.
  destruct m as [i l t v px py pvx pvy [a|] [b|]]; repeat split.
Qed.

Lemma runSimulation_runs msqrt mt ui env nodes edges :
  canvas_present env = true -> context_present env = true -> nodes <> [] ->
  runSimulation msqrt mt ui env nodes edges =
  (sim_step msqrt (env_width env) (env_height env) nodes edges,
   drawGraph mt ui (env_dpr env) (sim_step msqrt (env_width env) (env_height env) nodes edges)
     edges (env_width env) (env_height env), true).
Proof.
  intros Hc Hx Hn; unfold runSimulation; rewrite Hc, Hx; simpl.
  destruct nodes; [congruence|reflexivity].
Qed.

Lemma proj_inv m n :
  proj m = proj n -> id m = id n /\ x m = x n /\ y m = y n /\ fx m = fx n /\ fy m = fy n.
Proof. unfold proj; intros H; injection H; auto. Qed.

(** ** C3: pin fidelity *)

(** C3 (as stated, refuted): a node of an 800 x 600 view pinned at
    (10, 10) is not at (10, 10) after the tick: the bounds clamp moves it
    to (40, 40). *)
Lemma C3_pin_overridden_outside_inset :
  ~ (forall msqrt mt ui env nodes edges i n px py,
       canvas_present env = true -> context_present env = true ->
       nth_error nodes i = Some n -> fx n = Some px -> fy n = Some py ->
       exists n', nth_error (fst (fst (runSimulation msqrt mt ui env nodes edges))) i = Some n'
                  /\ x n' == px /\ y n' == py).
Proof.
  intros H.
  destruct (H Qsqrt_floor measure6 ex_ui0 ex_env [ex_pinnedA] [] 0%nat ex_pinnedA 10 10
              eq_refl eq_refl eq_refl eq_refl eq_refl) as [n' [Hn [Hx _]]].
  vm_compute in Hn; injection Hn as <-.
  vm_compute in Hx; discriminate.
Qed.

(** C3 (amended): on every tick a pin on an axis survives, and the node's
    coordinate on that axis ends the tick at the pin pushed into the
    viewport inset, [max(40, min(width - 40, px))] (resp. height, [py]),
    whatever the other nodes do; it is exactly the pin whenever the pin
    lies inside the inset [[40, width - 40]] (resp. [[40, height - 40]]). *)
Theorem C3_pin_held_up_to_bounds_clamp :
  forall msqrt mt ui env nodes edges i n,
  canvas_present env = true -> context_present env = true ->
  nth_error nodes i = Some n ->
  exists n', nth_error (fst (fst (runSimulation msqrt mt ui env nodes edges))) i = Some n' /\
    fx n' = fx n /\ fy n' = fy n /\
    match fx n with
    | Some px => x n' = Math_max 40 (Math_min (env_width env - 40) px) /\
                 (40 <= px -> px <= env_width env - 40 -> x n' == px)
    | None => True
    end /\
    match fy n with
    | Some py => y n' = Math_max 40 (Math_min (env_height env - 40) py) /\
                 (40 <= py -> py <= env_height env - 40 -> y n' == py)
    | None => True
    end.
Proof.
  intros msqrt mt ui env nodes edges i n Hc Hx Hn.
  rewrite runSimulation_runs by (auto; destruct nodes, i; simpl in Hn; congruence).
  destruct (nth_sim_step msqrt (env_width env) (env_height env) nodes edges i n Hn)
    as [m [Hp Hm]].
  exists (integrate (env_width env) (env_height env) m); split; [exact Hm|].
  destruct (proj_inv _ _ Hp) as [_ [Hmx [Hmy [Hmfx Hmfy]]]].
  rewrite apply_pin_x in Hmx; rewrite apply_pin_y in Hmy;
    rewrite apply_pin_fx in Hmfx; rewrite apply_pin_fy in Hmfy.
  destruct (integrate_fields (env_width env) (env_height env) m)
    as [Ifx [Ify [Ix [Iy _]]]].
  rewrite Ifx, Ify, Hmfx, Hmfy; split; [reflexivity|]; split; [reflexivity|].
  rewrite Ix, Iy, Hmfx, Hmfy, Hmx, Hmy.
  split.
  - destruct (fx n) as [px|]; [|exact I].
    split; [reflexivity|]; intros; apply clamp_fixed; assumption.
  - destruct (fy n) as [py|]; [|exact I].
    split; [reflexivity|]; intros; apply clamp_fixed; assumption.
Qed.

Lemma C3_pin_held_up_to_bounds_clamp_witness :
  exists n', nth_error (fst (fst (runSimulation Qsqrt_floor measure6 ex_ui0 ex_env
                                  [ex_nodeA; ex_pinnedC] [ex_edgeAB]))) 1 = Some n' /\
    fx n' = Some 300 /\ fy n' = Some 200 /\ x n' == 300 /\ y n' == 200.
Proof.
  destruct (C3_pin_held_up_to_bounds_clamp Qsqrt_floor measure6 ex_ui0 ex_env
              [ex_nodeA; ex_pinnedC] [ex_edgeAB] 1 ex_pinnedC eq_refl eq_refl eq_refl)
    as [n' [Hn [Hfx [Hfy [[_ Hx] [_ Hy]]]]]].
  exists n'; split; [exact Hn|]; split; [exact Hfx|]; split; [exact Hfy|].
  split; [apply Hx|apply Hy]; apply Qle_bool_iff; reflexivity.
Defined.

(** ** C5: the type filter *)

Lemma runSimulation_kinematics_view_free msqrt mt ui ui' env nodes edges :
  fst (fst (runSimulation msqrt mt ui env nodes edges))
  = fst (fst (runSimulation msqrt mt ui' env nodes edges)) /\
  snd (runSimulation msqrt mt ui env nodes edges)
  = snd (runSimulation msqrt mt ui' env nodes edges).
Proof.
  unfold runSimulation.
  destruct (_ || _); [split; reflexivity|].
  destruct (negb (context_present env)); split; reflexivity.
Qed.

(** C5: two runs of the frame loop that differ only in the set of selected
    types go through identical node arrays (positions, velocities and pins
    of every node) after any number of frames, and stop or continue
    together; on each frame the filter only enters the drawn commands. *)
Theorem C5_type_filter_view_only :
  forall msqrt mt ui types envs nodes edges scheduled,
  frames msqrt mt ui envs nodes edges scheduled
  = frames msqrt mt (set_types ui types) envs nodes edges scheduled /\
  forall env,
  fst (fst (runSimulation msqrt mt ui env nodes edges))
  = fst (fst (runSimulation msqrt mt (set_types ui types) env nodes edges)).
Proof.
  intros msqrt mt ui types envs nodes edges scheduled; split.
  - revert nodes scheduled; induction envs as [|env rest IH]; intros nodes scheduled;
      simpl; [reflexivity|].
    destruct scheduled; [|reflexivity].
    destruct (runSimulation_kinematics_view_free msqrt mt ui (set_types ui types) env nodes edges)
      as [H1 H2].
    destruct (runSimulation msqrt mt ui env nodes edges) as [[n1 c1] s1].
    destruct (runSimulation msqrt mt (set_types ui types) env nodes edges) as [[n2 c2] s2].
    simpl in H1, H2; subst n2 s2; apply IH.
  - intros env; apply runSimulation_kinematics_view_free.
Qed.

(** ** C6: the integration step *)

(** C6: the tick integrates after all forces; per axis without a pin the
    velocity is multiplied by 0.9, then clamped to [[-5, 5]], then added to
    the position (which the bounds clamp of C7 then applies to); an axis
    with a pin keeps its velocity and position untouched by this step. *)
Theorem C6_damp_then_clamp_then_integrate :
  forall msqrt w h nodes edges,
  sim_step msqrt w h nodes edges
    = map (integrate w h) (attract_pass (forces_pass msqrt w h nodes) edges) /\
  forall n, let n' := integrate w h n in
  match fx n with
  | None => vx n' = Math_max (-5) (Math_min 5 (vx n * (9 # 10))) /\
            x n' = Math_max 40 (Math_min (w - 40) (x n + vx n'))
  | Some _ => vx n' = vx n /\ x n' = Math_max 40 (Math_min (w - 40) (x n))
  end /\
  match fy n with
  | None => vy n' = Math_max (-5) (Math_min 5 (vy n * (9 # 10))) /\
            y n' = Math_max 40 (Math_min (h - 40) (y n + vy n'))
  | Some _ => vy n' = vy n /\ y n' = Math_max 40 (Math_min (h - 40) (y n))
  end.
Proof.
  intros msqrt w h nodes edges; split; [reflexivity|].
  intros n; cbv zeta.
  destruct (integrate_fields w h n) as [_ [_ [Ix [Iy [Ivx Ivy]]]]].
  rewrite Ix, Iy, Ivx, Ivy.
  destruct (fx n), (fy n); repeat split.
Qed.

(** ** C7: the bounds clamp *)

(** C7 (as stated, refuted): in a 60 px wide view no position satisfies
    [40 <= x <= width - 40 = 20]; after the tick the node is at [x = 40]. *)
Lemma C7_inset_empty_in_narrow_view :
  ~ (forall msqrt mt ui env nodes edges,
       canvas_present env = true -> context_present env = true ->
       Forall (fun n => 40 <= x n /\ x n <= env_width env - 40 /\
                        40 <= y n /\ y n <= env_height env - 40)
              (fst (fst (runSimulation msqrt mt ui env nodes edges)))).
Proof.
  intros H.
  specialize (H Qsqrt_floor measure6 ex_ui0 ex_env_small [ex_nodeA] [] eq_refl eq_refl).
  vm_compute in H. inversion H as [|a l [_ [Hx _]] _]; subst.
  apply Hx; reflexivity.
Qed.

Lemma runSimulation_ran msqrt mt ui env nodes edges :
  snd (runSimulation msqrt mt ui env nodes edges) = true ->
  fst (fst (runSimulation msqrt mt ui env nodes edges))
  = sim_step msqrt (env_width env) (env_height env) nodes edges.
Proof.
  unfold runSimulation.
  destruct (_ || _); [discriminate|].
  destruct (negb (context_present env)); [discriminate|reflexivity].
Qed.

Lemma integrate_in_inset w h m :
  40 <= x (integrate w h m) /\ x (integrate w h m) <= Math_max 40 (w - 40) /\
  40 <= y (integrate w h m) /\ y (integrate w h m) <= Math_max 40 (h - 40).
Proof.
  destruct (integrate_fields w h m) as [_ [_ [Ix [Iy _]]]].
  rewrite Ix, Iy.
  destruct (clamp_bounds 40 (w - 40) (match fx m with
     | None => x m + Math_max (- maxVelocity) (Math_min maxVelocity (vx m * damping))
     | Some _ => x m end)) as [A B].
  destruct (clamp_bounds 40 (h - 40) (match fy m with
     | None => y m + Math_max (- maxVelocity) (Math_min maxVelocity (vy m * damping))
     | Some _ => y m end)) as [C D].
  auto.
Qed.

Lemma Math_max_40 w : 80 <= w -> Math_max 40 (w - 40) == w - 40.
Proof.
  intros Hw; unfold Math_max.
  destruct (Qle_bool 40 (w - 40)) eqn:E; [reflexivity|].
  apply Qle_bool_false in E. exfalso; apply (Qlt_not_le _ _ E).
  apply Qplus_le_l with 40; ring_simplify; exact Hw.
Qed.

(** C7 (amended): whenever a tick runs, every node, pinned or not, ends it
    with [40 <= x <= max(40, width - 40)] and [40 <= y <= max(40, height - 40)];
    for [width >= 80] (resp. [height >= 80]) that is [[40, width - 40]]
    (resp. [[40, height - 40]]). *)
Theorem C7_positions_in_inset :
  forall msqrt mt ui env nodes edges,
  snd (runSimulation msqrt mt ui env nodes edges) = true ->
  Forall (fun n => 40 <= x n /\ x n <= Math_max 40 (env_width env - 40) /\
                   40 <= y n /\ y n <= Math_max 40 (env_height env - 40))
         (fst (fst (runSimulation msqrt mt ui env nodes edges))) /\
  (80 <= env_width env -> Math_max 40 (env_width env - 40) == env_width env - 40) /\
  (80 <= env_height env -> Math_max 40 (env_height env - 40) == env_height env - 40).
Proof.
  intros msqrt mt ui env nodes edges Hr.
  split; [|split; apply Math_max_40].
  rewrite (runSimulation_ran _ _ _ _ _ _ Hr).
  apply Forall_forall; intros n Hn.
  unfold sim_step in Hn; apply in_map_iff in Hn as [m [<- _]].
  apply integrate_in_inset.
Qed.

Lemma C7_positions_in_inset_witness :
  Forall (fun n => 40 <= x n /\ x n <= Math_max 40 (env_width ex_env_small - 40) /\
                   40 <= y n /\ y n <= Math_max 40 (env_height ex_env_small - 40))
         (fst (fst (runSimulation Qsqrt_floor measure6 ex_ui0 ex_env_small
                      [ex_nodeA; ex_nodeB] [ex_edgeAB]))).
Proof.
  apply (C7_positions_in_inset Qsqrt_floor measure6 ex_ui0 ex_env_small
           [ex_nodeA; ex_nodeB] [ex_edgeAB]).
  reflexivity.
Defined.

(** ** C4: the view transform *)

Lemma forallb_flat_map {A B} (p : B -> bool) (f : A -> list B) l :
  (forall a, forallb p (f a) = true) -> forallb p (flat_map f l) = true.
Proof.
  intros Hf; induction l as [|a t IH]; simpl; auto.
  rewrite forallb_app, Hf, IH; reflexivity.
Qed.

Lemma draw_body_no_transform mt ui nodes edges :
  forallb (fun c => negb (is_transform c)) (draw_body mt ui nodes edges) = true.
Proof.
  unfold draw_body; rewrite !forallb_app.
  rewrite !forallb_flat_map; simpl.
  - unfold draw_focus_label.
    destruct (match selectedNode ui with Some n => Some n | None => hoveredNode ui end)
      as [ln|]; [|reflexivity].
    destruct (find_by_id (id ln) _); reflexivity.
  - intros n; unfold draw_node; destruct (match selectedNode ui with
      | Some s => String.eqb (id s) (id n) | None => false end); reflexivity.
  - intros e; unfold draw_edge; destruct (_ || _); [reflexivity|].
    destruct (find_by_id (source e) nodes), (find_by_id (target e) nodes); reflexivity.
Qed.

Lemma ctm_app l1 l2 : ctm (l1 ++ l2) = fold_left ctm_step l2 (ctm l1).
Proof. unfold ctm; apply fold_left_app. Qed.

Lemma fold_ctm_no_transform l m :
  forallb (fun c => negb (is_transform c)) l = true -> fold_left ctm_step l m = m.
Proof.
  revert m; induction l as [|c t IH]; intros m H; simpl in *; [reflexivity|].
  apply andb_true_iff in H as [H1 H2].
  destruct c; simpl in H1; try discriminate; apply IH, H2.
Qed.

Lemma ctm_drawGraph mt ui dpr nodes edges width height :
  ctm (drawGraph mt ui dpr nodes edges width height)
  = ctm (draw_setup dpr width height (zoom ui) (panX ui) (panY ui)).
Proof.
  unfold drawGraph; rewrite ctm_app.
  apply fold_ctm_no_transform, draw_body_no_transform.
Qed.

Lemma Qdiv_eq_mul a z b : ~ z == 0 -> a / z == b -> a == b * z.
Proof. intros Hz H; rewrite <- H; field; exact Hz. Qed.

(** C4 (code bug): a frame sets the device-pixel-ratio scale, then the pan
    translation, then the zoom scale, so a model point [(px, py)] is drawn
    at device pixel [((px * zoom + pan.x) * dpr, (py * zoom + pan.y) * dpr)]
    -- but with the zoom and pan of [ui0], the render whose [runSimulation]
    the loop was started with (the loop reschedules that same callback),
    while the handlers convert the pointer with the current view [ui],
    reached from [ui0] by the interactions [ops] since.  Converting the
    client position of a drawn point back gives the point for every point
    exactly when the two views have the same zoom and pan; any wheel, zoom
    or pan step that changes them breaks the round trip. *)
Theorem C4_stale_view_breaks_roundtrip :
  forall msqrt mt ui0 ops env nodes edges left top,
  canvas_present env = true -> context_present env = true -> nodes <> [] ->
  ~ env_dpr env == 0 -> ~ zoom (fst (apply_ops msqrt true ops (ui0, nodes))) == 0 ->
  let ui := fst (apply_ops msqrt true ops (ui0, nodes)) in
  let M := ctm (snd (fst (runSimulation msqrt mt ui0 env nodes edges))) in
  let hit := fun px py =>
    to_model ui (mkPointer (fst (apply_matrix M px py) / env_dpr env + left)
                           (snd (apply_matrix M px py) / env_dpr env + top) left top) in
  (forall px py,
     fst (apply_matrix M px py) == (px * zoom ui0 + panX ui0) * env_dpr env /\
     snd (apply_matrix M px py) == (py * zoom ui0 + panY ui0) * env_dpr env) /\
  ((forall px py, fst (hit px py) == px /\ snd (hit px py) == py) <->
   zoom ui == zoom ui0 /\ panX ui == panX ui0 /\ panY ui == panY ui0).
Proof.
  intros msqrt mt ui0 ops env nodes edges left top Hc Hx Hn Hd Hz ui M hit.
  assert (HM : forall px py,
     fst (apply_matrix M px py) == (px * zoom ui0 + panX ui0) * env_dpr env /\
     snd (apply_matrix M px py) == (py * zoom ui0 + panY ui0) * env_dpr env).
  { intros px py; unfold M.
    rewrite runSimulation_runs by assumption; simpl snd; simpl fst.
    rewrite ctm_drawGraph; simpl; split; ring. }
  assert (Hh : forall px py,
     fst (hit px py) == (px * zoom ui0 + panX ui0 - panX ui) / zoom ui /\
     snd (hit px py) == (py * zoom ui0 + panY ui0 - panY ui) / zoom ui).
  { intros px py; destruct (HM px py) as [H1 H2]; unfold hit, to_model; simpl fst; simpl snd.
    rewrite H1, H2; split; field; split; assumption. }
  split; [exact HM|split].
  - intros Hrt.
    destruct (Hh 0 0) as [A0 B0]; destruct (Hrt 0 0) as [C0 D0].
    destruct (Hh 1 0) as [A1 _]; destruct (Hrt 1 0) as [C1 _].
    rewrite A0 in C0; rewrite B0 in D0; rewrite A1 in C1.
    apply Qdiv_eq_mul in C0; [|exact Hz]; apply Qdiv_eq_mul in D0; [|exact Hz];
      apply Qdiv_eq_mul in C1; [|exact Hz].
    split; [|split]; lra.
  - intros [E1 [E2 E3]] px py; destruct (Hh px py) as [A B].
    rewrite A, B, E1, E2, E3.
    assert (Hz0 : ~ zoom ui0 == 0) by (rewrite <- E1; exact Hz).
    split; field; exact Hz0.
Qed.

(** The frames keep the load-time zoom 0.8 while one wheel step down has
    set the handlers' zoom to 0.72: the model point [x = 300] is drawn at
    client [x = 240] and hit-tested at [x = 1000/3]. *)
Lemma C4_stale_view_breaks_roundtrip_witness :
  ~ (forall px py,
       fst (to_model (fst (apply_ops Qsqrt_floor true [OpWheel 1] (ex_ui0, [ex_nodeA])))
              (mkPointer
                 (fst (apply_matrix (ctm (snd (fst (runSimulation Qsqrt_floor measure6 ex_ui0
                        ex_env [ex_nodeA] [])))) px py) / env_dpr ex_env + 0)
                 (snd (apply_matrix (ctm (snd (fst (runSimulation Qsqrt_floor measure6 ex_ui0
                        ex_env [ex_nodeA] [])))) px py) / env_dpr ex_env + 0) 0 0)) == px /\
       snd (to_model (fst (apply_ops Qsqrt_floor true [OpWheel 1] (ex_ui0, [ex_nodeA])))
              (mkPointer
                 (fst (apply_matrix (ctm (snd (fst (runSimulation Qsqrt_floor measure6 ex_ui0
                        ex_env [ex_nodeA] [])))) px py) / env_dpr ex_env + 0)
                 (snd (apply_matrix (ctm (snd (fst (runSimulation Qsqrt_floor measure6 ex_ui0
                        ex_env [ex_nodeA] [])))) px py) / env_dpr ex_env + 0) 0 0)) == py) /\
  fst (to_model (fst (apply_ops Qsqrt_floor true [OpWheel 1] (ex_ui0, [ex_nodeA])))
         (mkPointer
            (fst (apply_matrix (ctm (snd (fst (runSimulation Qsqrt_floor measure6 ex_ui0
                   ex_env [ex_nodeA] [])))) 300 100) / env_dpr ex_env + 0)
            (snd (apply_matrix (ctm (snd (fst (runSimulation Qsqrt_floor measure6 ex_ui0
                   ex_env [ex_nodeA] [])))) 300 100) / env_dpr ex_env + 0) 0 0)) == 1000 # 3.
Proof.
  destruct (C4_stale_view_breaks_roundtrip Qsqrt_floor measure6 ex_ui0 [OpWheel 1] ex_env
              [ex_nodeA] [] 0 0) as [_ [H _]];
    [reflexivity|reflexivity|discriminate|vm_compute; discriminate|vm_compute; discriminate|].
  split.
  - intros Hrt; destruct (H Hrt) as [Hz _]; vm_compute in Hz; discriminate.
  - vm_compute; reflexivity.
Defined.

(** ** C8: zoom *)

Lemma Math_min_glb a b c : c <= a -> c <= b -> c <= Math_min a b.
Proof. unfold Math_min; destruct (Qle_bool a b); auto. Qed.

Lemma Math_max_lub a b c : a <= c -> b <= c -> Math_max a b <= c.
Proof. unfold Math_max; destruct (Qle_bool a b); auto. Qed.

Lemma wheel_zoom_range d z : 3 # 10 <= wheel_zoom d z /\ wheel_zoom d z <= 3.
Proof.
  unfold wheel_zoom; split; [apply Math_max_ge_l|].
  apply Math_max_lub; [lra|apply Math_min_le_l].
Qed.

Lemma zoom_apply_op msqrt cp st op :
  zoom (fst (apply_op msqrt cp st op)) =
  match op with
  | OpWheel d => wheel_zoom d (zoom (fst st))
  | OpZoomIn => Math_min 3 (zoom (fst st) * (6 # 5))
  | OpZoomOut => Math_max (3 # 10) (zoom (fst st) * (4 # 5))
  | OpReset => 8 # 10
  | _ => zoom (fst st)
  end.
Proof.
  destruct st as [ui nodes]; destruct op; simpl; try reflexivity.
  - unfold handleCanvasMouseDown; destruct (negb cp); [reflexivity|].
    destruct (to_model ui e) as [px py].
    destruct (hit_index msqrt px py nodes); [|reflexivity].
    destruct (nth_error nodes n); reflexivity.
  - unfold handleCanvasMouseMove; destruct (negb cp); [reflexivity|].
    destruct (to_model ui e) as [px py].
    destruct (draggedNode ui) as [i|]; [destruct (nth_error nodes i); reflexivity|].
    destruct (isDragging ui); reflexivity.
  - unfold handleCanvasMouseUp; destruct (draggedNode ui) as [i|]; [|reflexivity].
    destruct (nth_error nodes i); reflexivity.
  - unfold handleCanvasMouseLeave, handleCanvasMouseUp.
    destruct (draggedNode ui) as [i|]; [|reflexivity].
    destruct (nth_error nodes i); reflexivity.
  - unfold toggleType; destruct (has_type _ _); reflexivity.
Qed.

(** C8: a wheel event sets the zoom to [max(0.3, min(3, zoom * d))] with
    [d = 0.9] when [deltaY > 0] and [d = 1.1] otherwise, which lies in
    [[0.3, 3]] from any zoom; the zoom-in and zoom-out buttons, and any
    sequence of user actions, keep a zoom that starts in [[0.3, 3]] in it. *)
Theorem C8_zoom_bounded :
  forall msqrt cp deltaY ui ops st,
  zoom (handleWheel deltaY ui)
    = Math_max (3 # 10) (Math_min 3 (zoom ui * (if Qltb 0 deltaY then 9 # 10 else 11 # 10))) /\
  (3 # 10 <= zoom (handleWheel deltaY ui) /\ zoom (handleWheel deltaY ui) <= 3) /\
  (3 # 10 <= zoom ui -> zoom ui <= 3 ->
     (3 # 10 <= zoom (zoomIn ui) /\ zoom (zoomIn ui) <= 3) /\
     (3 # 10 <= zoom (zoomOut ui) /\ zoom (zoomOut ui) <= 3)) /\
  (3 # 10 <= zoom (fst st) -> zoom (fst st) <= 3 ->
     3 # 10 <= zoom (fst (apply_ops msqrt cp ops st)) /\
     zoom (fst (apply_ops msqrt cp ops st)) <= 3).
Proof.
  intros msqrt cp deltaY ui ops st.
  assert (Hin : forall z, 3 # 10 <= z -> z <= 3 ->
            3 # 10 <= Math_min 3 (z * (6 # 5)) /\ Math_min 3 (z * (6 # 5)) <= 3)
    by (intros z H1 H2; split; [apply Math_min_glb; lra|apply Math_min_le_l]).
  assert (Hout : forall z, 3 # 10 <= z -> z <= 3 ->
            3 # 10 <= Math_max (3 # 10) (z * (4 # 5)) /\ Math_max (3 # 10) (z * (4 # 5)) <= 3)
    by (intros z H1 H2; split; [apply Math_max_ge_l|apply Math_max_lub; lra]).
  split; [reflexivity|]. split; [apply wheel_zoom_range|].
  split; [intros H1 H2; split; [apply Hin|apply Hout]; assumption|].
  unfold apply_ops; revert st; induction ops as [|op rest IH]; intros st H1 H2;
    simpl; [auto|].
  apply IH; rewrite zoom_apply_op;
    destruct op; try (apply wheel_zoom_range); try (apply Hin; assumption);
    try (apply Hout; assumption); try assumption; lra.
Qed.

Lemma C8_zoom_bounded_witness :
  zoom (fst (apply_ops Qsqrt_floor true [OpZoomIn; OpZoomIn; OpWheel (-1); OpZoomOut]
               (ex_ui0, [ex_nodeA]))) <= 3.
Proof.
  destruct (C8_zoom_bounded Qsqrt_floor true 1 ex_ui0
              [OpZoomIn; OpZoomIn; OpWheel (-1); OpZoomOut] (ex_ui0, [ex_nodeA]))
    as [_ [_ [_ H]]].
  apply H; apply Qle_bool_iff; reflexivity.
Defined.

(** ** C9: reset *)

(** C9: whatever actions came before, after [resetView] the zoom is 0.8,
    the pan (0, 0), no node is selected and the type filter is empty. *)
Theorem C9_reset_restores_defaults :
  forall msqrt cp ops st,
  let ui := fst (apply_ops msqrt cp (ops ++ [OpReset]) st) in
  zoom ui = 8 # 10 /\ panX ui = 0 /\ panY ui = 0 /\
  selectedNode ui = None /\ selectedTypes ui = [].
Proof.
  intros msqrt cp ops st; unfold apply_ops; rewrite fold_left_app; simpl.
  destruct (fold_left (apply_op msqrt cp) ops st); simpl.
  repeat split.
Qed.

(** ** C10: overlapping hit areas *)

Lemma find_index_first {A} (p : A -> bool) l i a :
  nth_error l i = Some a -> p a = true ->
  (forall j b, (j < i)%nat -> nth_error l j = Some b -> p b = false) ->
  find_index p l = Some i.
Proof.
  revert i; induction l as [|h t IH]; intros [|i] Ha Hp Hbefore; simpl in *;
    try discriminate.
  - injection Ha as ->; rewrite Hp; reflexivity.
  - rewrite (Hbefore 0%nat h ltac:(lia) eq_refl).
    rewrite (IH i Ha Hp); [reflexivity|].
    intros j b Hj Hb; apply (Hbefore (S j) b); [lia|exact Hb].
Qed.

(** C10: when the node at index [i] of the array is within the 20-unit hit
    radius of the pointer and no earlier node is, pointer-down selects,
    pins and drags node [i], and hovering (no drag in progress) marks node
    [i], whatever later nodes lie nearer to the pointer. *)
Theorem C10_first_hit_in_array_order :
  forall msqrt e ui nodes i n,
  nth_error nodes i = Some n ->
  within msqrt (fst (to_model ui e)) (snd (to_model ui e)) n = true ->
  (forall j m, (j < i)%nat -> nth_error nodes j = Some m ->
     within msqrt (fst (to_model ui e)) (snd (to_model ui e)) m = false) ->
  hit_index msqrt (fst (to_model ui e)) (snd (to_model ui e)) nodes = Some i /\
  selectedNode (fst (handleCanvasMouseDown msqrt true e ui nodes))
    = Some (set_fxy n (Some (x n)) (Some (y n))) /\
  draggedNode (fst (handleCanvasMouseDown msqrt true e ui nodes)) = Some i /\
  (draggedNode ui = None -> isDragging ui = false ->
   hoveredNode (fst (handleCanvasMouseMove msqrt true e ui nodes)) = Some n).
Proof.
  intros msqrt e ui nodes i n Hn Hw Hb.
  assert (Hh : hit_index msqrt (fst (to_model ui e)) (snd (to_model ui e)) nodes = Some i)
    by (eapply find_index_first; eauto).
  split; [exact Hh|].
  unfold handleCanvasMouseDown, handleCanvasMouseMove.
  destruct (to_model ui e) as [px py]; simpl in Hh.
  rewrite Hh, Hn; simpl.
  split; [reflexivity|]. split; [reflexivity|].
  intros Hd Hg; rewrite Hd, Hg; reflexivity.
Qed.

Lemma C10_first_hit_in_array_order_witness :
  selectedNode (fst (handleCanvasMouseDown Qsqrt_floor true ex_pointer ex_ui_hit
                       [ex_hit_first; ex_hit_nearest]))
    = Some (set_fxy ex_hit_first (Some 109) (Some 112)) /\
  hoveredNode (fst (handleCanvasMouseMove Qsqrt_floor true ex_pointer ex_ui_hit
                      [ex_hit_first; ex_hit_nearest])) = Some ex_hit_first /\
  within Qsqrt_floor 100 100 ex_hit_nearest = true.
Proof.
  destruct (C10_first_hit_in_array_order Qsqrt_floor ex_pointer ex_ui_hit
              [ex_hit_first; ex_hit_nearest] 0 ex_hit_first eq_refl)
    as [_ [H1 [_ H2]]].
  - vm_compute; reflexivity.
  - intros j m Hj; lia.
  - split; [exact H1|]. split; [apply H2; reflexivity|]. vm_compute; reflexivity.
Defined.

(** * Further properties of the graph view *)

(** ** Array updates *)

Lemma nth_error_upd_same {A} (l : list A) i v a :
  nth_error l i = Some a -> nth_error (upd i v l) i = Some v.
Proof.
  revert i; induction l as [|h t IH]; intros [|i] H; simpl in *; try discriminate; auto.
Qed.

Lemma nth_error_upd_other {A} (l : list A) i j v :
  i <> j -> nth_error (upd i v l) j = nth_error l j.
Proof.
  revert i j; induction l as [|h t IH]; intros [|i] [|j] H; simpl; auto; congruence.
Qed.

Lemma upd_upd {A} (l : list A) i v w : upd i v (upd i w l) = upd i v l.
Proof. revert i; induction l as [|h t IH]; intros [|i]; simpl; f_equal; auto. Qed.

Lemma upd_self {A} (l : list A) i a : nth_error l i = Some a -> upd i a l = l.
Proof.
  revert i; induction l as [|h t IH]; intros [|i] H; simpl in *; try discriminate.
  - injection H as ->; reflexivity.
  - f_equal; auto.
Qed.

Lemma set_fxy_none n : fx n = None -> fy n = None -> set_fxy n None None = n.
Proof. destruct n; simpl; intros -> ->; reflexivity. Qed.

(** ** Type filter *)

Lemma has_type_filter_out t s ts :
  has_type (filter (fun u => negb (String.eqb t u)) ts) s
  = if String.eqb t s then false else has_type ts s.
Proof.
  unfold has_type; induction ts as [|u r IH]; simpl.
  - destruct (String.eqb t s); reflexivity.
  - destruct (String.eqb t s) eqn:E.
    + apply String.eqb_eq in E; subst s.
      destruct (String.eqb t u) eqn:Etu; simpl; rewrite IH, ?Etu; reflexivity.
    + destruct (String.eqb t u) eqn:Etu; simpl; rewrite IH.
      * apply String.eqb_eq in Etu; subst u; rewrite String.eqb_sym, E; reflexivity.
      * reflexivity.
Qed.

Lemma has_type_app ts t s : has_type (ts ++ [t]) s = has_type ts s || String.eqb s t.
Proof. unfold has_type; rewrite existsb_app; simpl; rewrite orb_false_r; reflexivity. Qed.

Lemma has_type_In ts t : has_type ts t = true <-> In t ts.
Proof.
  unfold has_type; rewrite existsb_exists; split.
  - intros [u [Hu E]]; apply String.eqb_eq in E; subst; exact Hu.
  - intros H; exists t; split; [exact H|apply String.eqb_refl].
Qed.

(** Toggling type [t] flips whether [t] is selected and leaves every other
    type as it was; toggling it twice gives back the same set of selected
    types. *)
Theorem toggleType_flips_and_roundtrips :
  forall t ui s,
  has_type (selectedTypes (toggleType t ui)) s
    = (if String.eqb t s then negb (has_type (selectedTypes ui) s)
       else has_type (selectedTypes ui) s) /\
  has_type (selectedTypes (toggleType t (toggleType t ui))) s = has_type (selectedTypes ui) s.
Proof.
  assert (Hf : forall t ui s, has_type (selectedTypes (toggleType t ui)) s
                = (if String.eqb t s then negb (has_type (selectedTypes ui) s)
                   else has_type (selectedTypes ui) s)).
  { intros t ui s; unfold toggleType.
    destruct (has_type (selectedTypes ui) t) eqn:Ht; simpl.
    - rewrite has_type_filter_out.
      destruct (String.eqb t s) eqn:E; [|reflexivity].
      apply String.eqb_eq in E; subst; rewrite Ht; reflexivity.
    - rewrite has_type_app.
      destruct (String.eqb t s) eqn:E.
      + apply String.eqb_eq in E; subst; rewrite Ht, String.eqb_refl; reflexivity.
      + rewrite String.eqb_sym, E, orb_false_r; reflexivity. }
  intros t ui s; split; [apply Hf|].
  rewrite Hf, Hf; destruct (String.eqb t s); [apply negb_involutive|reflexivity].
Qed.

(** ** Pointer gestures *)

Lemma set_fxy_twice n a b c d : set_fxy (set_fxy n a b) c d = set_fxy n c d.
Proof. destruct n; reflexivity. Qed.

(** Pointer-up ends every gesture: no node is dragged, no pan is in
    progress, the dragged node (and only it) has its pins cleared with its
    position and velocity kept, and the view (zoom, pan, selection, hover)
    is unchanged; pointer-leave ends the gesture in the same way, with the
    same nodes and the same zoom, pan and selection, and also clears the
    hover. *)
Theorem mouseUp_ends_gesture :
  forall ui nodes j,
  let r := handleCanvasMouseUp ui nodes in
  let l := handleCanvasMouseLeave ui nodes in
  draggedNode (fst r) = None /\ isDragging (fst r) = false /\
  zoom (fst r) = zoom ui /\ panX (fst r) = panX ui /\ panY (fst r) = panY ui /\
  selectedNode (fst r) = selectedNode ui /\ hoveredNode (fst r) = hoveredNode ui /\
  nth_error (snd r) j =
    match draggedNode ui with
    | Some i => if Nat.eqb i j then option_map (fun n => set_fxy n None None) (nth_error nodes j)
                else nth_error nodes j
    | None => nth_error nodes j
    end /\
  hoveredNode (fst l) = None /\ draggedNode (fst l) = None /\ isDragging (fst l) = false /\
  zoom (fst l) = zoom ui /\ panX (fst l) = panX ui /\ panY (fst l) = panY ui /\
  selectedNode (fst l) = selectedNode ui /\ snd l = snd r.
Proof.
  intros ui nodes j r l; subst r l; unfold handleCanvasMouseLeave, handleCanvasMouseUp.
  destruct (draggedNode ui) as [i|] eqn:Hd.
  - destruct (nth_error nodes i) as [n|] eqn:Hn; simpl.
    + repeat split; try reflexivity.
      destruct (Nat.eqb i j) eqn:E.
      * apply Nat.eqb_eq in E; subst j; rewrite Hn; simpl.
        apply (nth_error_upd_same _ _ _ _ Hn).
      * apply Nat.eqb_neq in E; apply nth_error_upd_other, E.
    + repeat split; try reflexivity.
      destruct (Nat.eqb i j) eqn:E; [|reflexivity].
      apply Nat.eqb_eq in E; subst j; rewrite Hn; reflexivity.
  - simpl; repeat split; try reflexivity; exact Hd.
Qed.

(** A click (pointer-down then pointer-up) on a node that was not pinned
    selects it and leaves the node array exactly as it was. *)
Theorem click_on_node_roundtrip :
  forall msqrt e ui nodes i n,
  hit_index msqrt (fst (to_model ui e)) (snd (to_model ui e)) nodes = Some i ->
  nth_error nodes i = Some n -> fx n = None -> fy n = None ->
  let r1 := handleCanvasMouseDown msqrt true e ui nodes in
  let r2 := handleCanvasMouseUp (fst r1) (snd r1) in
  snd r2 = nodes /\
  selectedNode (fst r2) = Some (set_fxy n (Some (x n)) (Some (y n))) /\
  draggedNode (fst r2) = None /\ isDragging (fst r2) = false.
Proof.
  intros msqrt e ui nodes i n Hh Hn Hfx Hfy.
  unfold handleCanvasMouseDown; destruct (to_model ui e) as [px py]; simpl in Hh.
  rewrite Hh, Hn; simpl.
  unfold handleCanvasMouseUp; simpl.
  rewrite (nth_error_upd_same _ _ _ _ Hn); simpl.
  rewrite upd_upd, set_fxy_twice, (set_fxy_none n Hfx Hfy), (upd_self _ _ _ Hn).
  repeat split.
Qed.

Lemma click_on_node_roundtrip_witness :
  snd (handleCanvasMouseUp
         (fst (handleCanvasMouseDown Qsqrt_floor true ex_pointer ex_ui_hit
                 [ex_hit_first; ex_hit_nearest]))
         (snd (handleCanvasMouseDown Qsqrt_floor true ex_pointer ex_ui_hit
                 [ex_hit_first; ex_hit_nearest])))
  = [ex_hit_first; ex_hit_nearest].
Proof.
  destruct (click_on_node_roundtrip Qsqrt_floor ex_pointer ex_ui_hit
              [ex_hit_first; ex_hit_nearest] 0 ex_hit_first)
    as [H _]; [vm_compute; reflexivity|reflexivity|reflexivity|reflexivity|exact H].
Defined.

(** Pointer-down on empty canvas followed by a pointer move pans the view
    by exactly the pointer's displacement, in client pixels, and touches
    neither the nodes nor the zoom. *)
Theorem pan_drag_follows_pointer :
  forall msqrt e1 e2 ui nodes,
  hit_index msqrt (fst (to_model ui e1)) (snd (to_model ui e1)) nodes = None ->
  draggedNode ui = None ->
  let r1 := handleCanvasMouseDown msqrt true e1 ui nodes in
  let r2 := handleCanvasMouseMove msqrt true e2 (fst r1) (snd r1) in
  snd r2 = nodes /\ zoom (fst r2) = zoom ui /\
  panX (fst r2) == panX ui + (clientX e2 - clientX e1) /\
  panY (fst r2) == panY ui + (clientY e2 - clientY e1).
Proof.
  intros msqrt e1 e2 ui nodes Hh Hd.
  unfold handleCanvasMouseDown; destruct (to_model ui e1) as [px py]; simpl in Hh.
  rewrite Hh; simpl.
  unfold handleCanvasMouseMove; simpl.
  rewrite Hd; simpl.
  repeat split; ring.
Qed.

Lemma pan_drag_follows_pointer_witness :
  panX (fst (handleCanvasMouseMove Qsqrt_floor true ex_pointer2
     (fst (handleCanvasMouseDown Qsqrt_floor true ex_pointer ex_ui_hit [ex_nodeB]))
     (snd (handleCanvasMouseDown Qsqrt_floor true ex_pointer ex_ui_hit [ex_nodeB])))) == 30.
Proof.
  destruct (pan_drag_follows_pointer Qsqrt_floor ex_pointer ex_pointer2 ex_ui_hit [ex_nodeB])
    as [_ [_ [H _]]]; [vm_compute; reflexivity|reflexivity|].
  rewrite H; reflexivity.
Defined.

(** No interaction handler moves a node: over any sequence of pointer,
    wheel, zoom, filter and reset events, every node keeps its display
    data, position and velocity; only the pins [fx]/[fy] are written. *)
Lemma kin_set_fxy n a b : kin (set_fxy n a b) = kin n.
Proof. destruct n; reflexivity. Qed.

Lemma kin_apply_op msqrt cp st op :
  map kin (snd (apply_op msqrt cp st op)) = map kin (snd st).
Proof.
  destruct st as [ui nodes]; destruct op; simpl; try reflexivity.
  - unfold handleCanvasMouseDown; destruct (negb cp); [reflexivity|].
    destruct (to_model ui e) as [px py].
    destruct (hit_index msqrt px py nodes); [|reflexivity].
    destruct (nth_error nodes n) eqn:Hn; [|reflexivity].
    apply (upd_same_image _ _ _ _ _ Hn), kin_set_fxy.
  - unfold handleCanvasMouseMove; destruct (negb cp); [reflexivity|].
    destruct (to_model ui e) as [px py].
    destruct (draggedNode ui) as [i|].
    + destruct (nth_error nodes i) eqn:Hn; [|reflexivity].
      apply (upd_same_image _ _ _ _ _ Hn), kin_set_fxy.
    + destruct (isDragging ui); reflexivity.
  - unfold handleCanvasMouseUp; destruct (draggedNode ui) as [i|]; [|reflexivity].
    destruct (nth_error nodes i) eqn:Hn; [|reflexivity].
    apply (upd_same_image _ _ _ _ _ Hn), kin_set_fxy.
  - unfold handleCanvasMouseLeave, handleCanvasMouseUp.
    destruct (draggedNode ui) as [i|]; [|reflexivity].
    destruct (nth_error nodes i) eqn:Hn; [|reflexivity].
    apply (upd_same_image _ _ _ _ _ Hn), kin_set_fxy.
Qed.

Theorem handlers_never_move_nodes :
  forall msqrt cp ops st,
  map kin (snd (apply_ops msqrt cp ops st)) = map kin (snd st).
Proof.
  intros msqrt cp ops; unfold apply_ops.
  induction ops as [|op ops IH]; intros st; simpl; [reflexivity|].
  rewrite IH; apply kin_apply_op.
Qed.

(** ** Dragging a node, then one tick *)

Lemma tick_pinned_node msqrt mt ui env nodes edges i n px py :
  canvas_present env = true -> context_present env = true ->
  nth_error nodes i = Some n -> fx n = Some px -> fy n = Some py ->
  exists n', nth_error (fst (fst (runSimulation msqrt mt ui env nodes edges))) i = Some n' /\
    fx n' = Some px /\ fy n' = Some py /\
    x n' = Math_max 40 (Math_min (env_width env - 40) px) /\
    y n' = Math_max 40 (Math_min (env_height env - 40) py).
Proof.
  intros Hc Hx Hn Hpx Hpy.
  rewrite runSimulation_runs by (auto; destruct nodes, i; simpl in Hn; congruence).
  destruct (nth_sim_step msqrt (env_width env) (env_height env) nodes edges i n Hn)
    as [m [Hp Hm]].
  exists (integrate (env_width env) (env_height env) m); split; [exact Hm|].
  destruct (proj_inv _ _ Hp) as [_ [Hmx [Hmy [Hmfx Hmfy]]]].
  rewrite apply_pin_x in Hmx; rewrite apply_pin_y in Hmy;
    rewrite apply_pin_fx in Hmfx; rewrite apply_pin_fy in Hmfy.
  destruct (integrate_fields (env_width env) (env_height env) m)
    as [Ifx [Ify [Ix [Iy _]]]].
  rewrite Ix, Iy, Ifx, Ify, Hmfx, Hmfy, Hmx, Hmy, Hpx, Hpy.
  repeat split.
Qed.

(** Grabbing node [i] and moving the pointer pins it at the pointer's
    model point; on the next tick the node sits at that point, clamped to
    the viewport inset, whatever the forces on it. *)
Theorem drag_then_tick_places_node :
  forall msqrt mt e1 e2 ui env nodes edges i n,
  canvas_present env = true -> context_present env = true ->
  hit_index msqrt (fst (to_model ui e1)) (snd (to_model ui e1)) nodes = Some i ->
  nth_error nodes i = Some n ->
  let r1 := handleCanvasMouseDown msqrt true e1 ui nodes in
  let r2 := handleCanvasMouseMove msqrt true e2 (fst r1) (snd r1) in
  exists n',
    nth_error (fst (fst (runSimulation msqrt mt (fst r2) env (snd r2) edges))) i = Some n' /\
    fx n' = Some (fst (to_model ui e2)) /\ fy n' = Some (snd (to_model ui e2)) /\
    x n' = Math_max 40 (Math_min (env_width env - 40) (fst (to_model ui e2))) /\
    y n' = Math_max 40 (Math_min (env_height env - 40) (snd (to_model ui e2))).
Proof.
  intros msqrt mt e1 e2 ui env nodes edges i n Hc Hx Hh Hn.
  unfold handleCanvasMouseDown; destruct (to_model ui e1) as [px py]; simpl in Hh.
  rewrite Hh, Hn; simpl.
  unfold handleCanvasMouseMove; simpl.
  rewrite (nth_error_upd_same _ _ _ _ Hn); simpl.
  apply tick_pinned_node with
    (n := set_fxy (set_fxy n (Some (x n)) (Some (y n)))
            (Some ((clientX e2 - rect_left e2 - panX ui) / zoom ui))
            (Some ((clientY e2 - rect_top e2 - panY ui) / zoom ui))); auto.
  apply nth_error_upd_same with (a := set_fxy n (Some (x n)) (Some (y n))).
  apply (nth_error_upd_same _ _ _ _ Hn).
Qed.

Lemma drag_then_tick_places_node_witness :
  exists n',
    nth_error (fst (fst (runSimulation Qsqrt_floor measure6
      (fst (handleCanvasMouseMove Qsqrt_floor true ex_pointer2
         (fst (handleCanvasMouseDown Qsqrt_floor true ex_pointer ex_ui_hit [ex_hit_nearest]))
         (snd (handleCanvasMouseDown Qsqrt_floor true ex_pointer ex_ui_hit [ex_hit_nearest]))))
      ex_env
      (snd (handleCanvasMouseMove Qsqrt_floor true ex_pointer2
         (fst (handleCanvasMouseDown Qsqrt_floor true ex_pointer ex_ui_hit [ex_hit_nearest]))
         (snd (handleCanvasMouseDown Qsqrt_floor true ex_pointer ex_ui_hit [ex_hit_nearest]))))
      []))) 0 = Some n' /\ x n' == 130 /\ y n' == 80.
Proof.
  destruct (drag_then_tick_places_node Qsqrt_floor measure6 ex_pointer ex_pointer2 ex_ui_hit
              ex_env [ex_hit_nearest] [] 0 ex_hit_nearest eq_refl eq_refl)
    as [n' [H1 [_ [_ [H2 H3]]]]]; [vm_compute; reflexivity|reflexivity|].
  exists n'; split; [exact H1|]; rewrite H2, H3; split; vm_compute; reflexivity.
Defined.

(** ** What a frame draws *)

Lemma visible_incl ui nodes n : In n (visible_nodes ui nodes) -> In n nodes.
Proof.
  unfold visible_nodes; destruct (selectedTypes ui); [auto|].
  intros H; apply filter_In in H; tauto.
Qed.

Lemma existsb_id s l :
  existsb (String.eqb s) (map id l) = true <-> exists n, In n l /\ id n = s.
Proof.
  rewrite existsb_exists; split.
  - intros [v [Hv E]]; apply in_map_iff in Hv as [n [<- Hn]].
    apply String.eqb_eq in E; eauto.
  - intros [n [Hn <-]]; exists (id n); split; [apply in_map, Hn|apply String.eqb_refl].
Qed.

Lemma find_by_id_some s nodes n :
  In n nodes -> id n = s -> exists m, find_by_id s nodes = Some m.
Proof.
  intros Hn Hs; unfold find_by_id.
  destruct (find _ nodes) as [m|] eqn:E; [eauto|].
  pose proof (find_none _ _ E n Hn) as F; simpl in F.
  rewrite Hs, String.eqb_refl in F; discriminate.
Qed.

(** An edge is stroked exactly when both of its endpoints are among the
    nodes that pass the type filter. *)
Theorem edge_drawn_iff_endpoints_visible :
  forall ui nodes e,
  draw_edge nodes (visible_nodes ui nodes) e <> [] <->
  (exists s, In s (visible_nodes ui nodes) /\ id s = source e) /\
  (exists t, In t (visible_nodes ui nodes) /\ id t = target e).
Proof.
  intros ui nodes e; unfold draw_edge.
  rewrite <- !existsb_id.
  destruct (existsb (String.eqb (source e)) _) eqn:Hs;
    destruct (existsb (String.eqb (target e)) _) eqn:Ht; simpl;
    try (split; [intros H; exfalso; apply H; reflexivity|intros [H1 H2]; discriminate]).
  apply existsb_id in Hs as [s [Hs Es]]; apply existsb_id in Ht as [t [Ht Et]].
  destruct (find_by_id_some _ nodes s (visible_incl _ _ _ Hs) Es) as [s' ->].
  destruct (find_by_id_some _ nodes t (visible_incl _ _ _ Ht) Et) as [t' ->].
  split; [auto|discriminate].
Qed.

Lemma arcs_app l1 l2 : arcs (l1 ++ l2) = arcs l1 ++ arcs l2.
Proof. unfold arcs; apply flat_map_app. Qed.

Lemma arcs_flat_map {A} (f : A -> list Cmd) l :
  arcs (flat_map f l) = flat_map (fun a => arcs (f a)) l.
Proof. induction l as [|a t IH]; simpl; [reflexivity|]; rewrite arcs_app, IH; reflexivity. Qed.

Lemma plates_app l1 l2 : plates (l1 ++ l2) = plates l1 ++ plates l2.
Proof. unfold plates; apply flat_map_app. Qed.

Lemma plates_flat_map {A} (f : A -> list Cmd) l :
  plates (flat_map f l) = flat_map (fun a => plates (f a)) l.
Proof. induction l as [|a t IH]; simpl; [reflexivity|]; rewrite plates_app, IH; reflexivity. Qed.

Lemma flat_map_nil {A B} (f : A -> list B) l : (forall a, f a = []) -> flat_map f l = [].
Proof. intros H; induction l as [|a t IH]; simpl; [reflexivity|]; rewrite H, IH; reflexivity. Qed.

Lemma arcs_draw_edge nodes visible e : arcs (draw_edge nodes visible e) = [].
Proof.
  unfold draw_edge; destruct (_ || _); [reflexivity|].
  destruct (find_by_id (source e) nodes), (find_by_id (target e) nodes); reflexivity.
Qed.

Lemma plates_draw_edge nodes visible e : plates (draw_edge nodes visible e) = [].
Proof.
  unfold draw_edge; destruct (_ || _); [reflexivity|].
  destruct (find_by_id (source e) nodes), (find_by_id (target e) nodes); reflexivity.
Qed.

Lemma plates_draw_node ui n : plates (draw_node ui n) = [].
Proof.
  unfold draw_node; cbv zeta.
  destruct (match selectedNode ui with Some s => String.eqb (id s) (id n) | None => false end);
    reflexivity.
Qed.

Lemma arcs_draw_focus_label mt ui visible : arcs (draw_focus_label mt ui visible) = [].
Proof.
  unfold draw_focus_label.
  destruct (match selectedNode ui with Some n => Some n | None => hoveredNode ui end);
    [|reflexivity].
  destruct (find_by_id _ visible); reflexivity.
Qed.

(** Every node that passes the type filter is drawn as exactly one circle,
    in array order, at its position, of radius 6 when it is the selected
    node and 4 otherwise; nothing else in a frame is a circle. *)
Theorem one_circle_per_visible_node :
  forall mt ui nodes edges,
  arcs (draw_body mt ui nodes edges) =
  map (fun n => (x n, y n,
                 if match selectedNode ui with
                    | Some s => String.eqb (id s) (id n) | None => false end
                 then 6 else 4))
      (visible_nodes ui nodes).
Proof.
  intros mt ui nodes edges; unfold draw_body.
  rewrite !arcs_app, arcs_draw_focus_label, arcs_flat_map, arcs_flat_map.
  rewrite (flat_map_nil _ _ (arcs_draw_edge nodes (visible_nodes ui nodes))).
  rewrite app_nil_r; simpl.
  induction (visible_nodes ui nodes) as [|n t IH]; simpl; [reflexivity|].
  rewrite IH; unfold draw_node; cbv zeta.
  destruct (match selectedNode ui with Some s => String.eqb (id s) (id n) | None => false end);
    reflexivity.
Qed.

Lemma find_by_id_iff s l :
  (exists m, find_by_id s l = Some m) <-> exists n, In n l /\ id n = s.
Proof.
  split.
  - intros [m Hm]; apply find_some in Hm as [Hm E]; apply String.eqb_eq in E; eauto.
  - intros [n [Hn Hs]]; eapply find_by_id_some; eauto.
Qed.

Lemma plates_draw_body mt ui nodes edges :
  plates (draw_body mt ui nodes edges) = plates (draw_focus_label mt ui (visible_nodes ui nodes)).
Proof.
  unfold draw_body; rewrite !plates_app, !plates_flat_map.
  rewrite (flat_map_nil _ _ (plates_draw_edge nodes (visible_nodes ui nodes))).
  rewrite (flat_map_nil _ _ (plates_draw_node ui)); reflexivity.
Qed.

Lemma plates_focus_length mt ui vis s :
  List.length (plates (draw_focus_label mt ui vis)) =
  match match selectedNode ui with Some n => Some n | None => hoveredNode ui end with
  | Some ln => match find_by_id (id ln) vis with Some _ => 1%nat | None => 0%nat end
  | None => 0%nat
  end /\
  ((exists m, find_by_id s vis = Some m) <-> exists n, In n vis /\ id n = s).
Proof.
  split; [|apply find_by_id_iff].
  unfold draw_focus_label.
  destruct (match selectedNode ui with Some n => Some n | None => hoveredNode ui end) as [ln|];
    [|reflexivity].
  destruct (find_by_id (id ln) vis); reflexivity.
Qed.

Lemma draw_body_split mt ui nodes edges :
  exists pre, draw_body mt ui nodes edges = pre ++ draw_focus_label mt ui (visible_nodes ui nodes)
              /\ plates pre = [].
Proof.
  exists (flat_map (draw_edge nodes (visible_nodes ui nodes)) edges
          ++ flat_map (draw_node ui) (visible_nodes ui nodes)).
  unfold draw_body; rewrite <- app_assoc; split; [reflexivity|].
  rewrite plates_app, !plates_flat_map.
  rewrite (flat_map_nil _ _ (plates_draw_edge nodes (visible_nodes ui nodes))).
  rewrite (flat_map_nil _ _ (plates_draw_node ui)); reflexivity.
Qed.

(** At most one label is emphasised (drawn whole on a plate) per frame, and
    it is that of the focus node: the selected node when there is one, the
    hovered node otherwise -- a hovered node is not labelled while another
    node is selected.  The plate and the label are the last two commands of
    the frame, centred above the first node of the type-filtered array with
    the focus node's id; when no such node passes the filter there is no
    plate at all. *)
Theorem focus_label_selection_first :
  forall mt ui nodes edges,
  let vis := visible_nodes ui nodes in
  let body := draw_body mt ui nodes edges in
  (List.length (plates body) <= 1)%nat /\
  (forall f,
     match selectedNode ui with Some s => f = s | None => hoveredNode ui = Some f end ->
     (forall n, find_by_id (id f) vis = Some n ->
        In n vis /\ id n = id f /\
        exists pre, body = pre ++
          [FillRect "rgba(10, 10, 11, 0.85)" (x n - mt (label n) / 2 - 4) (y n - 20)
                    (mt (label n) + 8) 16;
           FillText "#f1f5f9" (utf16 (label n)) (x n) (y n - 12)] /\ plates pre = []) /\
     ((exists n, In n vis /\ id n = id f) <-> exists n, find_by_id (id f) vis = Some n) /\
     (find_by_id (id f) vis = None -> plates body = [])) /\
  (selectedNode ui = None -> hoveredNode ui = None -> plates body = []).
Proof.
  intros mt ui nodes edges vis body; subst vis body.
  destruct (draw_body_split mt ui nodes edges) as [pre [Hb Hp]].
  rewrite Hb, plates_app, Hp; simpl.
  split; [|split].
  - destruct (plates_focus_length mt ui (visible_nodes ui nodes) EmptyString) as [-> _].
    destruct (match selectedNode ui with Some n => Some n | None => hoveredNode ui end) as [ln|];
      [destruct (find_by_id (id ln) _)|]; lia.
  - intros f Hf.
    assert (Hl : match selectedNode ui with Some n => Some n | None => hoveredNode ui end = Some f)
      by (destruct (selectedNode ui); [rewrite Hf|]; auto).
    unfold draw_focus_label; rewrite Hl.
    split; [|split; [symmetry; apply find_by_id_iff|]].
    + intros n Hn; rewrite Hn.
      apply find_some in Hn as [Hin E]; apply String.eqb_eq in E.
      split; [exact Hin|split; [exact E|]].
      exists pre; split; [reflexivity|exact Hp].
    + intros Hn; rewrite Hn; reflexivity.
  - intros Hs Hh; unfold draw_focus_label; rewrite Hs, Hh; reflexivity.
Qed.

(** With [A] selected and [B] hovered, both visible, the frame ends with the
    plate and label of [A]; with the date [B] selected while only parties
    are shown, no label is emphasised although the hovered party [A] is
    visible. *)
Lemma focus_label_selection_first_witness :
  (exists pre, draw_body measure6 (mkUI (Some ex_nodeA) (Some ex_nodeB) [] 1 0 0 false 0 0 None)
                 [ex_nodeA; ex_nodeB] []
     = pre ++
       [FillRect "rgba(10, 10, 11, 0.85)"
          (x ex_nodeA - measure6 (label ex_nodeA) / 2 - 4) (y ex_nodeA - 20)
          (measure6 (label ex_nodeA) + 8) 16;
        FillText "#f1f5f9" (utf16 (label ex_nodeA)) (x ex_nodeA) (y ex_nodeA - 12)]
     /\ plates pre = []) /\
  plates (draw_body measure6
     (mkUI (Some ex_nodeB) (Some ex_nodeA) ["party"%string] 1 0 0 false 0 0 None)
     [ex_nodeA; ex_nodeB] []) = [].
Proof.
  split.
  - destruct (focus_label_selection_first measure6
       (mkUI (Some ex_nodeA) (Some ex_nodeB) [] 1 0 0 false 0 0 None)
       [ex_nodeA; ex_nodeB] []) as [_ [H _]].
    destruct (H ex_nodeA eq_refl) as [Hf _].
    destruct (Hf ex_nodeA eq_refl) as [_ [_ E]]; exact E.
  - destruct (focus_label_selection_first measure6
       (mkUI (Some ex_nodeB) (Some ex_nodeA) ["party"%string] 1 0 0 false 0 0 None)
       [ex_nodeA; ex_nodeB] []) as [_ [H _]].
    destruct (H ex_nodeB eq_refl) as [_ [_ Hn]].
    apply Hn; reflexivity.
Defined.

(** ** Node captions *)

Lemma utf16_ascii l : ascii_only l = true -> List.length (utf16 l) = String.length l.
Proof.
  unfold utf16; induction l as [|a t IH]; simpl; [reflexivity|].
  intros H; apply andb_true_iff in H as [Ha Ht].
  rewrite Ha; cbn [flat_map]; rewrite length_app, IH by exact Ht.
  unfold utf16_units.
  replace (byte_of a <? 65536)%Z with true
    by (symmetry; apply Z.ltb_lt; apply Z.ltb_lt in Ha; lia).
  reflexivity.
Qed.

(** A node caption, counted as the code says in UTF-16 code units, is never
    longer than 14: a longer label becomes its first 12 units followed by
    [..]; a label of at most 14 units is drawn whole.  For an ASCII label
    the units are its characters. *)
Theorem short_label_at_most_14 :
  forall l,
  List.length (short_label l) = Nat.min (List.length (utf16 l)) 14 /\
  (Nat.ltb 14 (List.length (utf16 l)) = true ->
     short_label l = firstn 12 (utf16 l) ++ [46; 46]%Z) /\
  (Nat.ltb 14 (List.length (utf16 l)) = false -> short_label l = utf16 l) /\
  (ascii_only l = true -> List.length (utf16 l) = String.length l).
Proof.
  intros l; split; [|split; [|split]]; [|unfold short_label..|apply utf16_ascii].
  - unfold short_label; cbv zeta.
    destruct (Nat.ltb 14 (List.length (utf16 l))) eqn:E.
    + apply Nat.ltb_lt in E.
      rewrite length_app, length_firstn, Nat.min_l, Nat.min_r by lia; reflexivity.
    + apply Nat.ltb_ge in E; lia.
  - cbv zeta; intros ->; reflexivity.
  - cbv zeta; intros ->; reflexivity.
Qed.

(** A 13-unit label that takes 17 bytes in UTF-8 is drawn whole. *)
Lemma short_label_at_most_14_witness :
  short_label "Société Génér" = utf16 "Société Génér" /\
  List.length (utf16 "Société Génér") = 13%nat.
Proof.
  destruct (short_label_at_most_14 "Société Génér") as [_ [_ [H _]]].
  split; [apply H; vm_compute; reflexivity|vm_compute; reflexivity].
Defined.

(** ** The tick never edits a node's data or pins *)

Lemma dpin_set_vx n v : dpin (set_vx n v) = dpin n.
Proof. destruct n; reflexivity. Qed.

Lemma dpin_set_vy n v : dpin (set_vy n v) = dpin n.
Proof. destruct n; reflexivity. Qed.

Lemma dpin_set_x n v : dpin (set_x n v) = dpin n.
Proof. destruct n; reflexivity. Qed.

Lemma dpin_set_y n v : dpin (set_y n v) = dpin n.
Proof. destruct n; reflexivity. Qed.

Lemma dpin_apply_pin n : dpin (apply_pin n) = dpin n.
Proof. destruct n as [i l t v px py pvx pvy [a|] [b|]]; reflexivity. Qed.

Lemma dpin_repel msqrt node other : dpin (repel msqrt node other) = dpin node.
Proof.
  unfold repel; destruct (String.eqb _ _); [reflexivity|]; cbv zeta.
  destruct (_ && _); rewrite !dpin_set_vy, !dpin_set_vx; reflexivity.
Qed.

Lemma dpin_force_node msqrt w h l node : dpin (force_node msqrt w h l node) = dpin node.
Proof.
  unfold force_node; rewrite dpin_set_vy, dpin_set_vx.
  revert node; induction l as [|o t IH]; intros node; simpl; [reflexivity|].
  rewrite IH; apply dpin_repel.
Qed.

Lemma dpin_forces_go msqrt w h processed todo :
  map dpin (forces_go msqrt w h processed todo) = map dpin processed ++ map dpin todo.
Proof.
  revert processed; induction todo as [|n rest IH]; intros processed; simpl.
  - rewrite app_nil_r; reflexivity.
  - rewrite IH, map_app; simpl; rewrite dpin_force_node, dpin_apply_pin, <- app_assoc.
    reflexivity.
Qed.

Lemma dpin_attract_edge nodes e : map dpin (attract_edge nodes e) = map dpin nodes.
Proof.
  unfold attract_edge.
  destruct (find_index _ nodes) as [si|]; [|reflexivity].
  destruct (find_index _ nodes) as [ti|]; [|reflexivity].
  destruct (nth_error nodes si) as [s|] eqn:Hs; [|reflexivity].
  destruct (nth_error nodes ti) as [t|] eqn:Ht; [|reflexivity].
  assert (H1 : map dpin (upd si (set_vy (set_vx s (vx s + (x t - x s) * attraction))
                   (vy s + (y t - y s) * attraction)) nodes) = map dpin nodes)
    by (apply (upd_same_image _ _ _ _ s Hs); rewrite dpin_set_vy, dpin_set_vx; reflexivity).
  destruct (nth_error (upd si _ nodes) ti) as [t1|] eqn:Ht1; [|exact H1].
  rewrite <- H1; apply (upd_same_image _ _ _ _ t1 Ht1).
  rewrite dpin_set_vy, dpin_set_vx; reflexivity.
Qed.

Lemma dpin_integrate w h n : dpin (integrate w h n) = dpin n.
Proof.
  unfold integrate; cbv zeta.
  rewrite dpin_set_y, dpin_set_x.
  destruct (fx n); destruct (fy _);
    repeat first [rewrite dpin_set_y | rewrite dpin_set_x | rewrite dpin_set_vy
                 | rewrite dpin_set_vx]; reflexivity.
Qed.

Lemma dpin_sim_step msqrt w h nodes edges :
  map dpin (sim_step msqrt w h nodes edges) = map dpin nodes.
Proof.
  unfold sim_step; rewrite map_map, (map_ext _ dpin (dpin_integrate w h)).
  assert (A : forall l, map dpin (attract_pass l edges) = map dpin l).
  { unfold attract_pass; induction edges as [|e t IH]; intros l; simpl; [reflexivity|].
    rewrite IH; apply dpin_attract_edge. }
  rewrite A; unfold forces_pass; rewrite dpin_forces_go; reflexivity.
Qed.

(** However many frames run, in whatever viewports, the node array keeps
    its length and order, and every node its id, label, type, value and
    pins: the animation only moves nodes. *)
Theorem frames_keep_data_and_pins :
  forall msqrt mt ui envs nodes edges scheduled,
  map dpin (fst (frames msqrt mt ui envs nodes edges scheduled)) = map dpin nodes.
Proof.
  intros msqrt mt ui envs; induction envs as [|env rest IH]; intros nodes edges sch;
    simpl; [reflexivity|].
  destruct sch; [|reflexivity].
  destruct (runSimulation msqrt mt ui env nodes edges) as [[nodes' cmds] again] eqn:E.
  rewrite IH.
  unfold runSimulation in E.
  destruct (negb (canvas_present env) || _); [injection E as <- _ _; reflexivity|].
  destruct (negb (context_present env)); [injection E as <- _ _; reflexivity|].
  injection E as <- _ _; apply dpin_sim_step.
Qed.

(** ** Zoom indicator *)

Lemma zoom_ops_range msqrt cp ops st :
  3 # 10 <= zoom (fst st) -> zoom (fst st) <= 3 ->
  3 # 10 <= zoom (fst (apply_ops msqrt cp ops st)) /\ zoom (fst (apply_ops msqrt cp ops st)) <= 3.
Proof.
  unfold apply_ops; revert st; induction ops as [|op ops IH]; intros st H1 H2; simpl; [auto|].
  assert (R : 3 # 10 <= zoom (fst (apply_op msqrt cp st op)) /\
              zoom (fst (apply_op msqrt cp st op)) <= 3).
  { rewrite zoom_apply_op; destruct op;
      try (split; assumption); try apply wheel_zoom_range.
    - split; [apply Math_min_glb; [lra|nra]|apply Math_min_le_l].
    - split; [apply Math_max_ge_l|apply Math_max_lub; [lra|nra]].
    - split; [lra | lra]. }
  apply IH; apply R.
Qed.

(** The zoom indicator of a view reached from a zoom in [[0.3, 3]] by any
    sequence of interactions reads between 30 and 300 percent. *)
Theorem zoom_percent_range :
  forall msqrt cp ops st,
  3 # 10 <= zoom (fst st) -> zoom (fst st) <= 3 ->
  (30 <= zoom_percent (fst (apply_ops msqrt cp ops st)) <= 300)%Z.
Proof.
  intros msqrt cp ops st H1 H2.
  destruct (zoom_ops_range msqrt cp ops st H1 H2) as [L U].
  unfold zoom_percent, Math_round; split.
  - change 30%Z with (Qfloor (30 + (1 # 2))).
    apply Qfloor_resp_le; nra.
  - change 300%Z with (Qfloor (300 + (1 # 2))).
    apply Qfloor_resp_le; nra.
Qed.

Lemma zoom_percent_range_witness :
  zoom_percent (fst (apply_ops Qsqrt_floor true [OpZoomIn; OpWheel 1; OpReset; OpZoomOut]
                      (ex_ui0, []))) = 64%Z /\
  (30 <= zoom_percent (fst (apply_ops Qsqrt_floor true [OpZoomIn; OpWheel 1; OpReset; OpZoomOut]
                      (ex_ui0, []))) <= 300)%Z.
Proof.
  split; [vm_compute; reflexivity|].
  apply zoom_percent_range; vm_compute; discriminate.
Defined.

(** ** Legend *)

Lemma map_legend counts ui :
  map (fun e => fst (fst e)) (legend counts ui)
  = filter (fun t => negb (Qeq_bool (js_or (counts t) 0) 0)) entityTypes.
Proof.
  unfold legend; induction entityTypes as [|t rest IH]; simpl; [reflexivity|].
  destruct (Qeq_bool (js_or (counts t) 0) 0); simpl; rewrite IH; reflexivity.
Qed.

(** The legend lists, in the configured order, exactly the configured types
    with a non-zero count ([count || 0]), each once, with that count.  An
    entry is highlighted exactly when the nodes of its type are drawn: a
    node of that type passes the type filter iff the entry's flag is set. *)
Theorem legend_matches_filter :
  forall counts ui,
  map (fun e => fst (fst e)) (legend counts ui)
    = filter (fun t => negb (Qeq_bool (js_or (counts t) 0) 0)) entityTypes /\
  (forall t, In t entityTypes -> ~ js_or (counts t) 0 == 0 ->
     exists b, In (t, js_or (counts t) 0, b) (legend counts ui)) /\
  (forall t c b, In (t, c, b) (legend counts ui) ->
     In t entityTypes /\ c = js_or (counts t) 0 /\ ~ c == 0 /\
     (forall nodes n, type n = t -> (In n (visible_nodes ui nodes) <-> In n nodes /\ b = true))).
Proof.
  intros counts ui; split; [apply map_legend|split].
  - intros t Ht Hc.
    exists (has_type (selectedTypes ui) t || Nat.eqb (List.length (selectedTypes ui)) 0).
    unfold legend; apply in_flat_map; exists t; split; [exact Ht|].
    destruct (Qeq_bool (js_or (counts t) 0) 0) eqn:E.
    + apply Qeq_bool_iff in E; contradiction.
    + left; reflexivity.
  - intros t c b H; unfold legend in H.
    apply in_flat_map in H as [t' [Ht' H]].
    destruct (Qeq_bool (js_or (counts t') 0) 0) eqn:E; [destruct H|].
    destruct H as [H|[]]; injection H as <- <- <-.
    split; [exact Ht'|split; [reflexivity|split]].
    + intros Hc; apply Qeq_bool_iff in Hc; congruence.
    + intros nodes n Hn; unfold visible_nodes.
      destruct (selectedTypes ui) as [|s rest]; simpl.
      * split; [intros; split; [assumption|reflexivity]|tauto].
      * rewrite filter_In, Hn; unfold has_type; simpl; rewrite ?orb_false_r; tauto.
Qed.

(** With 3 dates and 2 parties, the legend lists [party] and [date]; while
    only parties are shown, the date entry is not highlighted and the date
    [B] is not drawn. *)
Lemma legend_matches_filter_witness :
  map (fun e => fst (fst e))
      (legend (fun t => if String.eqb t "date" then Some 3
                        else if String.eqb t "party" then Some 2 else None)
              (mkUI None None ["party"%string] 1 0 0 false 0 0 None))
    = ["party"; "date"]%string /\
  ~ In ex_nodeB (visible_nodes (mkUI None None ["party"%string] 1 0 0 false 0 0 None)
                  [ex_nodeA; ex_nodeB]).
Proof.
  destruct (legend_matches_filter
              (fun t => if String.eqb t "date" then Some 3
                        else if String.eqb t "party" then Some 2 else None)
              (mkUI None None ["party"%string] 1 0 0 false 0 0 None))
    as [Hm [_ H]].
  split; [rewrite Hm; vm_compute; reflexivity|].
  destruct (H "date"%string 3 false) as [_ [_ [_ Hv]]]; [vm_compute; auto|].
  rewrite (Hv [ex_nodeA; ex_nodeB] ex_nodeB eq_refl).
  intros [_ F]; discriminate.
Defined.

(** ** Resize and load *)

Lemma Qfloor_zero q : q == 0 -> Qfloor q = 0%Z.
Proof.
  intros H; apply Z.le_antisymm.
  - change 0%Z with (Qfloor 0); apply Qfloor_resp_le; rewrite H; apply Qle_refl.
  - change 0%Z with (Qfloor 0); apply Qfloor_resp_le; rewrite H; apply Qle_refl.
Qed.

(** After a resize the simulation and the drawing work in the container's
    logical size, whatever the device pixel ratio (a zero size included,
    where [Number(...) || canvas.width] falls back to the bitmap size, which
    is then 0 as well); the bitmap is [floor] of the logical size times the
    ratio, the ratio itself is unchanged, and without a container nothing
    changes. *)
Theorem resize_sets_logical_size :
  forall w h env,
  env_width (resizeCanvas true w h env) == w /\
  env_height (resizeCanvas true w h env) == h /\
  env_dpr (resizeCanvas true w h env) = env_dpr env /\
  canvas_width (resizeCanvas true w h env) = inject_Z (Qfloor (w * env_dpr env)) /\
  canvas_height (resizeCanvas true w h env) = inject_Z (Qfloor (h * env_dpr env)) /\
  resizeCanvas false w h env = env.
Proof.
  intros w h env; unfold env_width, env_height, js_or; cbn -[Qfloor Qmult Qeq_bool].
  split; [|split; [|split; [|split; [|split]]]]; try reflexivity.
  - destruct (Qeq_bool w 0) eqn:E; [|reflexivity].
    apply Qeq_bool_iff in E.
    rewrite Qfloor_zero by (rewrite E; ring); rewrite E; reflexivity.
  - destruct (Qeq_bool h 0) eqn:E; [|reflexivity].
    apply Qeq_bool_iff in E.
    rewrite Qfloor_zero by (rewrite E; ring); rewrite E; reflexivity.
Qed.

Lemma nth_seed_nodes seedpos nodes : forall k i n,
  nth_error (seed_nodes seedpos k nodes) i = Some n ->
  exists m, nth_error nodes i = Some m /\ n = seed_node seedpos (k + i) m.
Proof.
  induction nodes as [|a t IH]; intros k [|i] n H; simpl in H; try discriminate.
  - injection H as <-; exists a; rewrite Nat.add_0_r; auto.
  - destruct (IH (S k) i n H) as [m [Hm ->]]; exists m; rewrite Nat.add_succ_r; auto.
Qed.

Lemma Math_min_le_r a b : Math_min a b <= b.
Proof.
  unfold Math_min; destruct (Qle_bool a b) eqn:E; [apply Qle_bool_iff, E|apply Qle_refl].
Qed.

Lemma seed_bound c0 R r j w :
  -1 <= c0 <= 1 -> 0 <= R -> 0 <= r < 1 -> 0 <= j < 1 ->
  w / 2 - (R + 40) <= w / 2 + R * ((1 # 2) + r * (1 # 2)) * c0 + (j - (1 # 2)) * 80 /\
  w / 2 + R * ((1 # 2) + r * (1 # 2)) * c0 + (j - (1 # 2)) * 80 <= w / 2 + (R + 40).
Proof.
  intros [C1 C2] HR [r1 r2] [j1 j2].
  assert (H1 : 0 <= R * r) by (apply Qmult_le_0_compat; lra).
  assert (H2 : 0 <= R * (1 - r)) by (apply Qmult_le_0_compat; lra).
  assert (Hr1 : 0 <= R * ((1 # 2) + r * (1 # 2))) by lra.
  assert (Hr2 : R * ((1 # 2) + r * (1 # 2)) <= R) by lra.
  remember (R * ((1 # 2) + r * (1 # 2))) as rad eqn:Er; clear Er.
  assert (H3 : 0 <= rad * (1 - c0)) by (apply Qmult_le_0_compat; lra).
  assert (H4 : 0 <= rad * (1 + c0)) by (apply Qmult_le_0_compat; lra).
  split; lra.
Qed.

Lemma dpin_seed_nodes sp k l : map dpin (seed_nodes sp k l) = map dpin l.
Proof.
  revert k; induction l as [|a t IH]; intros k; simpl; [reflexivity|].
  rewrite IH; unfold seed_node; destruct (sp k).
  rewrite dpin_set_vy, dpin_set_vx, dpin_set_y, dpin_set_x; reflexivity.
Qed.

Lemma seed_in_canvas w mn v :
  0 <= mn -> mn <= w -> 800 # 3 <= w ->
  w / 2 - (mn * (35 # 100) + 40) <= v -> v <= w / 2 + (mn * (35 # 100) + 40) ->
  0 <= v <= w.
Proof.
  intros H1 H2 H3 H4 H5.
  assert (E : w / 2 == w * (1 # 2)) by field.
  rewrite E in H4, H5; split; lra.
Qed.

Lemma seed_node_pos sp i m :
  x (seed_node sp i m) = fst (sp i) /\ y (seed_node sp i m) = snd (sp i) /\
  vx (seed_node sp i m) = 0 /\ vy (seed_node sp i m) = 0.
Proof. unfold seed_node; destruct (sp i); destruct m; repeat split. Qed.

(** Loading seeds the nodes on the jittered circle of lines 128-139: each
    node starts at rest within [0.35 * min(width, height) + 40] of the
    container's centre on each axis, whatever [Math.random()] (in [[0, 1)])
    and [Math.cos]/[Math.sin] (in [[-1, 1]]) return; so in a container of
    at least [800/3] pixels each way every node starts inside it.  The
    fetched edges and every node's id, label, type, value and pins are
    kept, in order. *)
Theorem initializeGraph_seeds_in_view :
  forall cos sin PI rnd w h data nodes edges,
  (forall a, -1 <= cos a <= 1) -> (forall a, -1 <= sin a <= 1) ->
  (forall k, 0 <= rnd k < 1) -> 0 <= w -> 0 <= h ->
  initializeGraph true true (seed_circle cos sin PI rnd w h (List.length (data_nodes data))) data
    = Some (nodes, edges) ->
  edges = data_edges data /\ map dpin nodes = map dpin (data_nodes data) /\
  forall i n, nth_error nodes i = Some n ->
    vx n = 0 /\ vy n = 0 /\
    w / 2 - (Math_min w h * (35 # 100) + 40) <= x n <= w / 2 + (Math_min w h * (35 # 100) + 40) /\
    h / 2 - (Math_min w h * (35 # 100) + 40) <= y n <= h / 2 + (Math_min w h * (35 # 100) + 40) /\
    (800 # 3 <= w -> 800 # 3 <= h -> 0 <= x n <= w /\ 0 <= y n <= h).
Proof.
  intros cos sin PI rnd w h data nodes edges Hc Hs Hr Hw Hh H.
  unfold initializeGraph in H; simpl in H; injection H as <- <-.
  split; [reflexivity|split].
  - apply dpin_seed_nodes.
  - intros i n Hn; destruct (nth_seed_nodes _ _ 0 i n Hn) as [m [_ ->]].
    change (0 + i)%nat with i.
    destruct (seed_node_pos (seed_circle cos sin PI rnd w h (List.length (data_nodes data))) i m)
      as [-> [-> [-> ->]]].
    assert (HR : 0 <= Math_min w h * (35 # 100))
      by (apply Qmult_le_0_compat; [apply Math_min_glb; assumption|lra]).
    pose proof (Math_min_le_l w h); pose proof (Math_min_le_r w h).
    unfold seed_circle; cbv zeta; simpl fst; simpl snd.
    destruct (seed_bound (cos ((2 * PI * inject_Z (Z.of_nat i)) /
                               inject_Z (Z.of_nat (List.length (data_nodes data)))))
                (Math_min w h * (35 # 100)) (rnd (3 * i)%nat) (rnd (3 * i + 1)%nat) w
                (Hc _) HR (Hr _) (Hr _)) as [X1 X2].
    destruct (seed_bound (sin ((2 * PI * inject_Z (Z.of_nat i)) /
                               inject_Z (Z.of_nat (List.length (data_nodes data)))))
                (Math_min w h * (35 # 100)) (rnd (3 * i)%nat) (rnd (3 * i + 2)%nat) h
                (Hs _) HR (Hr _) (Hr _)) as [Y1 Y2].
    split; [reflexivity|split; [reflexivity|split; [split; assumption|split; [split; assumption|]]]].
    assert (Hm0 : 0 <= Math_min w h) by (apply Math_min_glb; assumption).
    intros W H'; split; eapply seed_in_canvas; eauto.
Qed.

Lemma initializeGraph_seeds_in_view_witness :
  exists n,
    nth_error (seed_nodes (seed_circle (fun _ => 1) (fun _ => 0) 3 (fun _ => 1 # 2) 800 600 2)
                 0 (data_nodes ex_graph)) 1 = Some n /\
    0 <= x n <= 800 /\ 0 <= y n <= 600.
Proof.
  destruct (initializeGraph_seeds_in_view (fun _ => 1) (fun _ => 0) 3 (fun _ => 1 # 2) 800 600
              ex_graph
              (seed_nodes (seed_circle (fun _ => 1) (fun _ => 0) 3 (fun _ => 1 # 2) 800 600 2)
                 0 (data_nodes ex_graph))
              (data_edges ex_graph))
    as [_ [_ H]];
    [intros; lra|intros; lra|intros; lra|lra|lra|reflexivity|].
  eexists; split; [reflexivity|].
  destruct (H 1%nat _ eq_refl) as [_ [_ [_ [_ K]]]].
  apply K; lra.
Defined.

(** Loading always ends ([loading] is cleared), and it never stores an
    empty or missing graph: the graph shown afterwards is either the one
    shown before or a fetched graph with at least one node, fetched
    together with its document; a fetched non-empty graph is always
    stored once the document arrives, and a failed document request
    changes neither the document nor the graph. *)
Theorem loadData_never_stores_empty_graph :
  forall Doc doc graph (p : PageData Doc),
  let p' := loadData Doc doc graph p in
  loading Doc p' = false /\
  (doc = None -> document Doc p' = document Doc p /\ graphData Doc p' = graphData Doc p) /\
  (forall g, graphData Doc p' = Some g ->
     graphData Doc p = Some g \/ (doc <> None /\ graph = Some g /\ data_nodes g <> [])) /\
  (forall d g, doc = Some d -> graph = Some g -> data_nodes g <> [] ->
     document Doc p' = Some d /\ graphData Doc p' = Some g).
Proof.
  intros Doc doc graph p p'; subst p'; unfold loadData.
  split; [destruct doc; reflexivity|split; [|split]].
  - intros ->; split; reflexivity.
  - intros g; destruct doc as [d|]; simpl; [|auto].
    destruct graph as [g'|]; [|auto].
    destruct (Nat.ltb 0 (List.length (data_nodes g'))) eqn:E; [|auto].
    intros H; injection H as <-; right.
    apply Nat.ltb_lt in E; split; [discriminate|split; [reflexivity|]].
    intros Hn; rewrite Hn in E; simpl in E; lia.
  - intros d g -> -> Hn; simpl.
    destruct (data_nodes g) eqn:E; [contradiction|]; split; reflexivity.
Qed.
